(** * htshell: a shallow embedding of the token-refreshing shell wrapper

    The repository holds three evolutions of one Go program:
    - [src/main.go]             (the first version, called [Main] below),
    - [src/unnamed/part_000]    (the [Refresher] version, called [P000]),
    - [src/unnamed/part_001]    (the intermediate version, called [P001]).

    Go values are modelled as follows: a Go [string] or [[]byte] is a Rocq
    [string] (a list of bytes); an [error] is [option string] ([None] is
    [nil], [Some m] an error whose [Error()] is [m]); a [time.Duration] is a
    [Z] of nanoseconds; the process environment is the list of its
    ["KEY=VALUE"] entries, as [os.Environ] returns it.  External processes
    (getent, htgettoken, the shell) are oracles: their outcomes are inputs
    of the model. *)

From Stdlib Require Import String Ascii List ZArith Bool Lia.
Import ListNotations.
Open Scope string_scope.

(** ** Go errors and [fmt] *)

Definition error := option string.

(** [fmt]'s rendering of an [error] operand under the verb [%s]:
    a nil interface prints as ["%!s(<nil>)"]. *)
Definition fmt_err_s (e : error) : string :=
  match e with
  | None => "%!s(<nil>)"
  | Some m => m
  end.

(** [fmt.Sprintf(format, a)] for a format with exactly one [%s] verb:
    the first ["%s"] is replaced by the rendered operand. *)
Fixpoint sprintf_s (format arg : string) : string :=
  match format with
  | EmptyString => EmptyString
  | String "%" (String "s" rest) => arg ++ rest
  | String c rest => String c (sprintf_s rest arg)
  end.

(** ** Byte-string helpers *)

Definition colon : ascii := ":".
Definition equals : ascii := "=".

(** [bytes.LastIndex(s, []byte(":"))]: the index of the last colon, or -1. *)
Fixpoint last_index_aux (c : ascii) (s : string) (i : Z) (acc : Z) : Z :=
  match s with
  | EmptyString => acc
  | String d rest =>
      last_index_aux c rest (i + 1) (if Ascii.eqb c d then i else acc)
  end.

Definition last_index (s : string) (c : ascii) : Z := last_index_aux c s 0 (-1).

(** Go slicing [s[lo:hi]]: panics unless [0 <= lo <= hi <= len(s)]. *)
Definition slice (s : string) (lo hi : Z) : option string :=
  if (0 <=? lo)%Z && (lo <=? hi)%Z && (hi <=? Z.of_nat (String.length s))%Z
  then Some (substring (Z.to_nat lo) (Z.to_nat (hi - lo)) s)
  else None.

(** ** Process environment *)

(** The key of an environment entry: the bytes before its first ['='];
    an entry without ['='] has no key. *)
Fixpoint env_key (kv : string) : option string :=
  match kv with
  | EmptyString => None
  | String c rest =>
      if Ascii.eqb c equals then Some EmptyString
      else option_map (String c) (env_key rest)
  end.

(** The value of an entry: the bytes after its first ['=']. *)
Fixpoint env_value (kv : string) : string :=
  match kv with
  | EmptyString => EmptyString
  | String c rest => if Ascii.eqb c equals then rest else env_value rest
  end.

Definition has_key (k kv : string) : bool :=
  match env_key kv with Some k' => String.eqb k k' | None => false end.

(** The value a child process sees for [k] in the environment list it is
    given: [os/exec] de-duplicates the list keeping the last entry of each
    key, so the last entry with key [k] wins. *)
Fixpoint env_get (k : string) (env : list string) : option string :=
  match env with
  | [] => None
  | kv :: rest =>
      match env_get k rest with
      | Some v => Some v
      | None => if has_key k kv then Some (env_value kv) else None
      end
  end.

(** The runtime's copy of the environment ([syscall.copyenv]): the first
    entry of each key is kept, later duplicates are cleared. Cleared entries
    are not returned by [os.Environ], so they are dropped here. *)
Fixpoint copyenv_aux (seen : list string) (env : list string) : list string :=
  match env with
  | [] => []
  | kv :: rest =>
      match env_key kv with
      | Some k =>
          if existsb (String.eqb k) seen then copyenv_aux seen rest
          else kv :: copyenv_aux (k :: seen) rest
      | None => kv :: copyenv_aux seen rest
      end
  end.

Definition copyenv (env : list string) : list string := copyenv_aux [] env.

(** [os.Setenv(k, v)]: the entry of key [k] is overwritten in place, or
    ["k=v"] is appended when there is none. *)
Fixpoint replace_first (k kv' : string) (env : list string)
  : option (list string) :=
  match env with
  | [] => None
  | kv :: rest =>
      if has_key k kv then Some (kv' :: rest)
      else option_map (cons kv) (replace_first k kv' rest)
  end.

Definition setenv (k v : string) (env : list string) : list string :=
  let kv := k ++ "=" ++ v in
  match replace_first k kv env with
  | Some env' => env'
  | None => app env [kv]
  end.

(** [os.LookupEnv] and [os.Getenv]. *)
Definition lookupenv (k : string) (env : list string) : option string :=
  env_get k env.

Definition getenv (k : string) (env : list string) : string :=
  match env_get k env with Some v => v | None => "" end.

(** ** Shell resolution: [Getsh] *)

(** The outcome of [exec.Command("getent", "passwd", u.Username).Output()]:
    the captured standard output, or the error ([*ExitError] on a non-zero
    exit, or a launch failure). *)
Inductive getent_result :=
| GetentOut (out : string)
| GetentErr (e : string).

(** A function result that may also be a run-time panic. *)
Inductive go_result (A : Type) :=
| Ret (a : A)
| Panic (msg : string).
Arguments Ret {A} a.
Arguments Panic {A} msg.

(** [Getsh] of [src/main.go] (lines 90-104): only the passwd database. *)
Definition Getsh_main (getent : getent_result) (fallback : string)
  : go_result (string * error) :=
  match getent with
  | GetentErr e => Ret (fallback, Some e)
  | GetentOut out =>
      if Nat.eqb (String.length out) 0 then
        Ret (fallback, Some "empty output from getent")
      else
        let loc := last_index out colon in
        if (loc <=? 0)%Z then
          Ret (fallback, Some ("bad output from getent: " ++ out))
        else
          match slice out (loc + 1) (Z.of_nat (String.length out) - 1) with
          | Some sh => Ret (sh, None)
          | None => Panic "runtime error: slice bounds out of range"
          end
  end.

(** [Getsh] of [part_000] (lines 136-153) and [part_001] (lines 101-118):
    the [SHELL] variable first, then the same passwd lookup. *)
Definition Getsh (env : list string) (getent : getent_result)
  (fallback : string) : go_result (string * error) :=
  match lookupenv "SHELL" env with
  | Some sh => Ret (sh, None)
  | None => Getsh_main getent fallback
  end.

(** ** [time.ParseDuration] (Go standard library)

    Durations are [int64] nanoseconds; the accumulators of the Go code are
    [uint64] and are kept in [Z] with the overflow checks of the source.
    The one floating-point step, [float64(f) * (float64(unit) / scale)] for
    a fractional part, is taken as the exact quotient [f * unit / scale]. *)

Definition two63 : Z := 2 ^ 63.

Definition is_digit (c : ascii) : bool :=
  (48 <=? nat_of_ascii c)%nat && (nat_of_ascii c <=? 57)%nat.

Definition digit_val (c : ascii) : Z := Z.of_nat (nat_of_ascii c) - 48.

(** [leadingInt]: consumes [0-9]*; [None] is [errLeadingInt]. *)
Fixpoint leading_int (s : string) (x : Z) : option (Z * string) :=
  match s with
  | EmptyString => Some (x, s)
  | String c rest =>
      if is_digit c then
        if (x >? two63 / 10)%Z then None
        else
          let x' := (x * 10 + digit_val c)%Z in
          if (x' >? two63)%Z then None else leading_int rest x'
      else Some (x, s)
  end.

(** [leadingFraction]: consumes [0-9]*, returning the digits read before
    overflow, the matching power of ten, and the rest. *)
Fixpoint leading_fraction (s : string) (x scale : Z) (overflow : bool)
  : Z * Z * string :=
  match s with
  | EmptyString => (x, scale, s)
  | String c rest =>
      if is_digit c then
        if overflow then leading_fraction rest x scale true
        else if (x >? (two63 - 1) / 10)%Z then leading_fraction rest x scale true
        else
          let y := (x * 10 + digit_val c)%Z in
          if (y >? two63)%Z then leading_fraction rest x scale true
          else leading_fraction rest y (scale * 10) false
      else (x, scale, s)
  end.

(** The unit: the longest prefix free of ['.'] and digits. *)
Fixpoint span_unit (s : string) : string * string :=
  match s with
  | EmptyString => (EmptyString, EmptyString)
  | String c rest =>
      if Ascii.eqb c "." || is_digit c then (EmptyString, s)
      else let (u, r) := span_unit rest in (String c u, r)
  end.

(** [unitMap]; ["µs"] (U+00B5) and ["μs"] (U+03BC) are UTF-8 encoded. *)
Definition micro_sign : string := String (ascii_of_nat 194) (String (ascii_of_nat 181) "s").
Definition greek_mu : string := String (ascii_of_nat 206) (String (ascii_of_nat 188) "s").

Definition unit_map (u : string) : option Z :=
  if String.eqb u "ns" then Some 1%Z
  else if String.eqb u "us" then Some 1000%Z
  else if String.eqb u micro_sign then Some 1000%Z
  else if String.eqb u greek_mu then Some 1000%Z
  else if String.eqb u "ms" then Some 1000000%Z
  else if String.eqb u "s" then Some 1000000000%Z
  else if String.eqb u "m" then Some 60000000000%Z
  else if String.eqb u "h" then Some 3600000000000%Z
  else None.

(** The [for s != ""] loop; every iteration consumes at least one byte, so
    [length s + 1] rounds of fuel suffice. *)
Fixpoint parse_loop (fuel : nat) (s : string) (d : Z) : option Z :=
  match fuel with
  | O => None
  | S fuel' =>
      match s with
      | EmptyString => Some d
      | String c _ =>
          if negb (Ascii.eqb c "." || is_digit c) then None else
          match leading_int s 0 with
          | None => None
          | Some (v, s1) =>
              let pre := negb (Nat.eqb (String.length s1) (String.length s)) in
              let '(f, scale, s2, post) :=
                match s1 with
                | String "." s1' =>
                    let '(f, scale, r) := leading_fraction s1' 0 1 false in
                    (f, scale, r, negb (Nat.eqb (String.length r) (String.length s1')))
                | _ => (0%Z, 1%Z, s1, false)
                end in
              if negb (pre || post) then None else
              let (u, s3) := span_unit s2 in
              if Nat.eqb (String.length u) 0 then None else
              match unit_map u with
              | None => None
              | Some unit =>
                  if (v >? two63 / unit)%Z then None else
                  let v := (v * unit)%Z in
                  let v := if (f >? 0)%Z then (v + f * unit / scale)%Z else v in
                  if (f >? 0)%Z && (v >? two63)%Z then None else
                  let d := ((d + v) mod 2 ^ 64)%Z in
                  if (d >? two63)%Z then None else parse_loop fuel' s3 d
              end
          end
      end
  end.

(** [time.ParseDuration]: [None] is a returned error. *)
Definition ParseDuration (orig : string) : option Z :=
  let '(neg, s) :=
    match orig with
    | String "-" r => (true, r)
    | String "+" r => (false, r)
    | _ => (false, orig)
    end in
  if String.eqb s "0" then Some 0%Z
  else if String.eqb s "" then None
  else
    match parse_loop (S (String.length s)) s 0 with
    | None => None
    | Some d =>
        if neg then Some (- d)%Z
        else if (d >? two63 - 1)%Z then None else Some d
    end.

(** ** Configuration: the [init] functions *)

Definition minute : Z := 60000000000.

(** [strings.ToLower] on bytes: ASCII letters are lowered; the words
    [boolish] compares with are ASCII, and no other byte lowers onto them. *)
Definition lower_ascii (c : ascii) : ascii :=
  let n := nat_of_ascii c in
  if (65 <=? n)%nat && (n <=? 90)%nat then ascii_of_nat (n + 32) else c.

Fixpoint to_lower (s : string) : string :=
  match s with
  | EmptyString => EmptyString
  | String c rest => String (lower_ascii c) (to_lower rest)
  end.

(** [boolish] of [part_000] (lines 50-56). *)
Definition boolish (s : string) : bool :=
  let l := to_lower s in
  negb (String.eqb l "no" || String.eqb l "false" || String.eqb l "0").

Record Config := {
  RefreshInterval : Z;
  ExportBearerToken : bool;
  LogAtPrompt : bool;
  LogPrefix : string
}.

Definition default_config : Config := {|
  RefreshInterval := 10 * minute;
  ExportBearerToken := true;
  LogAtPrompt := false;
  LogPrefix := "[htshell] "
|}.

(** [init] of [part_000] (lines 27-48); [Panic] is [panic(err)]. *)
Definition init_000 (env : list string) : go_result Config :=
  let ri :=
    match lookupenv "HTSHELL_REFRESH_INTERVAL" env with
    | Some r =>
        match ParseDuration r with
        | Some d => Ret d
        | None => Panic ("time: invalid duration " ++ r)
        end
    | None => Ret (RefreshInterval default_config)
    end in
  match ri with
  | Panic m => Panic m
  | Ret d =>
      let ex := match lookupenv "HTSHELL_EXPORT_BEARER_TOKEN" env with
                | Some r => boolish r | None => ExportBearerToken default_config end in
      let lp := match lookupenv "HTSHELL_LOG_AT_PROMPT" env with
                | Some r => boolish r | None => LogAtPrompt default_config end in
      let px := match lookupenv "HTSHELL_PREFIX" env with
                | Some r => r | None => LogPrefix default_config end in
      Ret {| RefreshInterval := d; ExportBearerToken := ex;
             LogAtPrompt := lp; LogPrefix := px |}
  end.

(** [init] of [part_001] (lines 19-27): only the interval. *)
Definition init_001 (env : list string) : go_result Z :=
  match lookupenv "HTSHELL_REFRESH_INTERVAL" env with
  | Some r =>
      match ParseDuration r with
      | Some d => Ret d
      | None => Panic ("time: invalid duration " ++ r)
      end
  | None => Ret (10 * minute)%Z
  end.

(** ** The foreground thread of [main]

    [main] is modelled as a function of the outcomes of the operating-system
    calls it makes (recorded in [Inputs]) to the sequence of observable
    events it performs, how the process ends, and which files it leaves on
    disk. The refresher goroutine it starts is modelled separately, by the
    step relation of module [Refresher]; here its start and its stop are
    events. *)

(** An external process run: program, arguments and the environment the
    child receives. *)
Record Invocation := {
  inv_prog : string;
  inv_args : list string;
  inv_env : list string;
  inv_interactive : bool
}.

(** The environment of an [exec.Cmd]: its [Env] field when non-nil, the
    process environment otherwise. [None] is a nil slice. *)
Definition cmd_environ (cmd_env : option (list string)) (penv : list string)
  : list string :=
  match cmd_env with Some e => e | None => penv end.

(** [cmd.Env = append(cmd.Env, kv)]: appending to a nil slice makes a
    non-nil one. *)
Definition env_append (cmd_env : option (list string)) (kv : string)
  : option (list string) :=
  match cmd_env with Some e => Some (app e [kv]) | None => Some [kv] end.

(** Operands of [log.Printf] and [log.Fatalf]. *)
Inductive Arg :=
| AStr (s : string)
| AErr (e : error)
| ADur (d : Z).

Inductive Event :=
| ELog (format : string) (args : list Arg)     (* log.Printf / Println *)
| EFatal (format : string) (args : list Arg)   (* log.Fatalf *)
| ERLog (format : string) (args : list Arg)    (* r.Log.Printf (part_000) *)
| ECreate (path : string)                      (* a file is created *)
| ERemove (path : string)                      (* os.Remove *)
| ERun (inv : Invocation)                      (* htgettoken is run *)
| EStartRefresher (bg : Invocation) (interval : Z)
    (* the refresher goroutine starts; [bg] is what it runs at each tick *)
| EStopRefresher                               (* cancel, then wait *)
| ESpawnShell (sh : Invocation)                (* cmd.Start succeeded *)
| EShellExited.                                (* cmd.Wait returned *)

Inductive Exit :=
| ExitNormal            (* main returned: exit status 0 *)
| ExitFatal             (* log.Fatalf: os.Exit(1), deferred calls skipped *)
| ExitPanic (m : string). (* panic: deferred calls run, exit status 2 *)

Record Run := {
  events : list Event;
  exit : Exit;
  files : list string   (* the files main created that still exist *)
}.

(** The outcomes of the operating-system calls of one run. *)
Record Inputs := {
  in_env : list string;          (* the environment the process starts with *)
  in_args : list string;         (* os.Args[1:] *)
  in_user : option string;       (* user.Current(): the Uid, or an error *)
  in_tmp : option string;        (* os.CreateTemp: the random part, or an error *)
  in_log_ok : bool;              (* os.Create of the refresher log file *)
  in_getent : getent_result;     (* getent passwd <user> *)
  in_refresh0 : error;           (* the initial, interactive htgettoken run *)
  in_shell_start : error         (* cmd.Start() of the shell *)
}.

Definition user_err : string := "user: Current requires cgo or $USER set in environment".
Definition create_err : string := "open: permission denied".
Definition nil_deref : string :=
  "runtime error: invalid memory address or nil pointer dereference".

(** [os.CreateTemp("", pattern)]: the file [pattern + random] in
    [os.TempDir()] ([$TMPDIR], or ["/tmp"] when empty). *)
Definition temp_dir (penv : list string) : string :=
  match getenv "TMPDIR" penv with "" => "/tmp" | d => d end.

Definition join_path (dir name : string) : string :=
  match String.get (String.length dir - 1) dir with
  | Some "/"%char => dir ++ name
  | _ => dir ++ "/" ++ name
  end.

Definition temp_name (penv : list string) (pattern rnd : string) : string :=
  join_path (temp_dir penv) (pattern ++ rnd).

(** Deferred calls, most recent first. *)
Inductive Defer :=
| DRemove (path : string)
| DStop.

Fixpoint remove_file (p : string) (fs : list string) : list string :=
  match fs with
  | [] => []
  | f :: rest => if String.eqb f p then remove_file p rest else f :: remove_file p rest
  end.

Fixpoint run_defers (ds : list Defer) (fs : list string) : list Event * list string :=
  match ds with
  | [] => ([], fs)
  | DRemove p :: rest =>
      let (evs, fs') := run_defers rest (remove_file p fs) in (ERemove p :: evs, fs')
  | DStop :: rest =>
      let (evs, fs') := run_defers rest fs in
      (ELog "stopping the token refresher..." [] :: EStopRefresher :: evs, fs')
  end.

(** Leaving [main] by returning or by a panic runs the deferred calls. *)
Definition unwind (evs : list Event) (ds : list Defer) (fs : list string) (ex : Exit) : Run :=
  let (devs, fs') := run_defers ds fs in
  {| events := app evs devs; exit := ex; files := fs' |}.

(** [log.Fatalf] exits at once: the deferred calls do not run. *)
Definition fatal (evs : list Event) (fs : list string) : Run :=
  {| events := evs; exit := ExitFatal; files := fs |}.

Definition htgettoken : string := "htgettoken".
Definition BTF : string := "BEARER_TOKEN_FILE".

Definition no_run (ex : Exit) : Run := {| events := []; exit := ex; files := [] |}.

Definition log_if_err (sh : string) (err : error) : list Event :=
  match err with
  | Some _ => [ELog "unable to get login shell, using default (%s): %s" [AStr sh; AErr err]]
  | None => []
  end.

(** *** [src/main.go] *)

(** [Refresh(f, interactive)] (lines 107-116): [cmd.Env] starts nil and
    receives the single entry [BEARER_TOKEN_FILE=f]. *)
Definition refresh_go (penv : list string) (f : string) (args : list string)
  (interactive : bool) : Invocation := {|
  inv_prog := htgettoken;
  inv_args := args;
  inv_env := cmd_environ (env_append None (BTF ++ "=" ++ f)) penv;
  inv_interactive := interactive
|}.

(** [main] (lines 20-87). *)
Definition main_go (i : Inputs) : Run :=
  let penv := copyenv (in_env i) in
  match in_user i with
  | None => fatal [EFatal "unable to determine current user: %s" [AErr (Some user_err)]] []
  | Some uid =>
    match Getsh_main (in_getent i) "/bin/bash" with
    | Panic m => no_run (ExitPanic m)
    | Ret (sh, err) =>
      let evs := log_if_err sh err in
      let cmd_env := env_append None "PS1=[htshell:\w]\$" in
      match in_tmp i with
      | None =>
          (* tok is nil: tok.Name() among the Fatalf operands dereferences it *)
          {| events := evs; exit := ExitPanic nil_deref; files := [] |}
      | Some rnd =>
        let tok := temp_name penv ("bt_u" ++ uid) rnd in
        let ds := [DRemove tok] in
        let cmd_env := env_append cmd_env (BTF ++ "=" ++ tok) in
        (* Refresh(tok.Name(), true): the returned error is not used *)
        let evs := app evs
          [ECreate tok;
           ERun (refresh_go penv tok (in_args i) true);
           ELog "refreshing token (%s) every %s" [AStr tok; ADur (10 * minute)];
           EStartRefresher (refresh_go penv tok (in_args i) false) (10 * minute)] in
        let sh_inv := {| inv_prog := sh; inv_args := ["-i"; "-l"];
                         inv_env := cmd_environ cmd_env penv; inv_interactive := true |} in
        match in_shell_start i with
        | Some e => unwind evs ds [tok] (ExitPanic e)
        | None =>
            unwind (app evs [ESpawnShell sh_inv; EShellExited;
                             ELog "waiting for token refresher to exit..." [];
                             EStopRefresher])
                   ds [tok] ExitNormal
        end
      end
    end
  end.

(** *** [part_001] *)

(** [Refresh(f, interactive)] (lines 121-129): [cmd.Env] stays nil, so the
    child inherits the process environment; [f] is not used. *)
Definition refresh_001 (penv : list string) (f : string) (args : list string)
  (interactive : bool) : Invocation := {|
  inv_prog := htgettoken;
  inv_args := args;
  inv_env := cmd_environ None penv;
  inv_interactive := interactive
|}.

(** [main] (lines 29-97), given the [RefreshInterval] set by [init]. *)
Definition main_001 (ri : Z) (i : Inputs) : Run :=
  let penv := copyenv (in_env i) in
  match in_user i with
  | None => fatal [EFatal "unable to determine current user: %s" [AErr (Some user_err)]] []
  | Some uid =>
    match in_tmp i with
    | None => no_run (ExitPanic nil_deref)
    | Some rnd =>
      let tok := temp_name penv ("bt_u" ++ uid ++ "_") rnd in
      (* tok, err := os.CreateTemp(...) returned a nil err *)
      let err : error := None in
      let ds := [DRemove tok] in
      let penv := setenv BTF tok penv in
      let evs := [ECreate tok; ERun (refresh_001 penv tok (in_args i) true)] in
      match in_refresh0 i with
      | Some _ => fatal (app evs [EFatal "unable to get initial token: %s" [AErr err]]) [tok]
      | None =>
        let evs := app evs
          [ELog "refreshing token (%s) every %s" [AStr tok; ADur ri];
           EStartRefresher (refresh_001 penv tok (in_args i) false) ri] in
        match Getsh penv (in_getent i) "/bin/bash" with
        | Panic m => unwind evs ds [tok] (ExitPanic m)
        | Ret (sh, gerr) =>
          let evs := app evs (log_if_err sh gerr) in
          let cmd_env := env_append (Some penv) "PS1=[htshell:\w]\$ " in
          let sh_inv := {| inv_prog := sh; inv_args := ["-i"; "-l"];
                           inv_env := cmd_environ cmd_env penv; inv_interactive := true |} in
          match in_shell_start i with
          | Some e => unwind evs ds [tok] (ExitPanic e)
          | None =>
              unwind (app evs [ESpawnShell sh_inv; EShellExited;
                               ELog "waiting for token refresher to exit..." [];
                               EStopRefresher])
                     ds [tok] ExitNormal
          end
        end
      end
    end
  end.

Definition program_001 (i : Inputs) : Run :=
  match init_001 (copyenv (in_env i)) with
  | Panic m => no_run (ExitPanic m)
  | Ret ri => main_001 ri i
  end.

(** *** [part_000] *)

(** [func (r *Refresher) Refresh(interactive bool)] (lines 197-211) for the refresher
    built by [main], whose [Log] is non-nil: it writes a line to [r.Log],
    then runs htgettoken with [cmd.Env] nil, so the child inherits the
    process environment. *)
Definition refresh_000 (penv : list string) (args : list string)
  (interactive : bool) : Invocation := {|
  inv_prog := htgettoken;
  inv_args := args;
  inv_env := cmd_environ None penv;
  inv_interactive := interactive
|}.

Definition refresh_000_events (penv : list string) (tok : string)
  (args : list string) (interactive : bool) : list Event :=
  [ERLog "refeshing bearer token (%s)" [AStr tok];
   ERun (refresh_000 penv args interactive)].

(** [main] (lines 58-132), given the configuration set by [init]. *)
Definition main_000 (cfg : Config) (i : Inputs) : Run :=
  let penv := copyenv (in_env i) in
  match in_user i with
  | None => fatal [EFatal "unable to determine current user: %s" [AErr (Some user_err)]] []
  | Some uid =>
    match in_tmp i with
    | None => fatal [EFatal "unable to create token file: %s" [AErr (Some create_err)]] []
    | Some rnd =>
      let tok := temp_name penv ("bt_u" ++ uid ++ "_") rnd in
      let ds := [DRemove tok] in
      let penv := setenv BTF tok penv in
      let penv :=
        if ExportBearerToken cfg then
          setenv "PROMPT_COMMAND"
            ("export BEARER_TOKEN=$(cat " ++ tok ++ ");" ++ getenv "PROMPT_COMMAND" penv) penv
        else penv in
      let rlog := tok ++ ".log" in
      if negb (in_log_ok i) then
        fatal [ECreate tok;
               EFatal "unable to create refresher log file: %s" [AErr (Some create_err)]] [tok]
      else
      let ds := DRemove rlog :: ds in
      let fs := [tok; rlog] in
      let evs := ECreate tok :: ECreate rlog :: refresh_000_events penv tok (in_args i) true in
      match in_refresh0 i with
      | Some e => fatal (app evs [EFatal "unable to get initial token: %s" [AErr (Some e)]]) fs
      | None =>
        (* r.Start(RefreshInterval) returns nil; then defer r.Stop() *)
        let evs := app evs
          [ERLog "refreshing token (%s) every %s" [AStr tok; ADur (RefreshInterval cfg)];
           EStartRefresher (refresh_000 penv (in_args i) false) (RefreshInterval cfg)] in
        let ds := DStop :: ds in
        match Getsh penv (in_getent i) "/bin/bash" with
        | Panic m => unwind evs ds fs (ExitPanic m)
        | Ret (sh, gerr) =>
          let evs := app evs (log_if_err sh gerr) in
          let cmd_env := env_append (Some penv)
                           ("PS1=" ++ LogPrefix cfg ++ getenv "PS1" penv) in
          let cmd_env :=
            if LogAtPrompt cfg then
              env_append cmd_env ("PROMPT_COMMAND=cat " ++ rlog ++ " && truncate -s0 "
                                  ++ rlog ++ ";" ++ getenv "PROMPT_COMMAND" penv)
            else cmd_env in
          let evs :=
            if LogAtPrompt cfg then evs
            else app evs [ELog "refresher and htgettoken logs in %s" [AStr rlog]] in
          let sh_inv := {| inv_prog := sh; inv_args := [];
                           inv_env := cmd_environ cmd_env penv; inv_interactive := true |} in
          match in_shell_start i with
          | Some e => unwind evs ds fs (ExitPanic e)
          | None => unwind (app evs [ESpawnShell sh_inv; EShellExited]) ds fs ExitNormal
          end
        end
      end
    end
  end.

Definition program_000 (i : Inputs) : Run :=
  match init_000 (copyenv (in_env i)) with
  | Panic m => no_run (ExitPanic m)
  | Ret cfg => main_000 cfg i
  end.

(** The rendered message of the first [log.Fatalf] of a run, for
    formats with one [%s] operand (the only kind [main] uses). *)
Definition render_arg (a : Arg) : option string :=
  match a with
  | AStr s => Some s
  | AErr e => Some (fmt_err_s e)
  | ADur _ => None   (* Duration.String is not modelled *)
  end.

Fixpoint fatal_message (evs : list Event) : option string :=
  match evs with
  | [] => None
  | EFatal format [a] :: _ => option_map (sprintf_s format) (render_arg a)
  | _ :: rest => fatal_message rest
  end.

(** The token file of a run: the first file [main] creates. *)
Fixpoint first_created (evs : list Event) : option string :=
  match evs with
  | [] => None
  | ECreate p :: _ => Some p
  | _ :: rest => first_created rest
  end.

(** The htgettoken runs of a run: the initial one, and the one the
    refresher goroutine repeats at every tick. *)
Fixpoint tool_runs (evs : list Event) : list Invocation :=
  match evs with
  | [] => []
  | ERun inv :: rest => inv :: tool_runs rest
  | EStartRefresher inv _ :: rest => inv :: tool_runs rest
  | _ :: rest => tool_runs rest
  end.

(** ** The refresher goroutine ([part_000], lines 155-193)

    [Start] spawns a goroutine that loops on a [select] between
    [time.After(interval)] and [ctx.Done()]; [Stop] calls [r.cancel()] and
    then [r.wg.Wait()]. The model is a step relation over the state shared
    by the caller of [Start]/[Stop] and the goroutine, with a logical clock;
    every interleaving of the two threads and of the passing of time is a
    path. Go's [select] chooses among the ready cases at random, so when the
    timer has fired and the context is cancelled both steps are enabled.
    The goroutines of [main.go] (lines 60-75) and [part_001] (lines 55-69)
    run the same loop. *)
Module Refresher.

Inductive Gor :=
| GNotSpawned              (* Start not called *)
| GLoop                    (* top of the for loop: time.After not yet called *)
| GSelect (deadline : Z)   (* blocked in select; the timer fires at deadline *)
| GRefreshing (n : nat)    (* r.Refresh(false) in flight, the n-th run *)
| GReturned.               (* the goroutine has returned *)

Inductive MainPc :=
| MIdle                    (* the caller is not inside Stop *)
| MWaiting                 (* inside Stop, blocked in r.wg.Wait() *)
| MPanicked.               (* Stop called r.cancel while it was nil *)

Inductive REvent :=
| RInvoke (inv : Invocation)                 (* htgettoken started *)
| RLog (format : string) (args : list Arg)   (* r.Log.Printf *)
| RStdLog (line : string)                    (* log.Println *)
| RCancel                                    (* r.cancel() *)
| RStopReturned.                             (* Stop returned *)

Record World := {
  now : Z;               (* the clock, in nanoseconds *)
  ctx_done : bool;       (* ctx.Done() is closed *)
  cancel_set : bool;     (* r.cancel != nil *)
  wg : nat;              (* the counter of r.wg *)
  gor : Gor;
  mpc : MainPc;
  calls : nat;           (* htgettoken runs started by the goroutine *)
  trace : list REvent    (* most recent first *)
}.

(** The zero [Refresher] value, before [Start]. *)
Definition w0 : World := {|
  now := 0; ctx_done := false; cancel_set := false; wg := 0;
  gor := GNotSpawned; mpc := MIdle; calls := 0; trace := []
|}.

Definition log_line (log_set : bool) (format : string) (args : list Arg) : list REvent :=
  if log_set then [RLog format args] else [].

Section Steps.

(** [r.TokenFile], whether [r.Log] is non-nil, the interval passed to
    [Start], the process [r.Refresh(false)] runs, and the result of the
    n-th background run of htgettoken. *)
Variable tok : string.
Variable log_set : bool.
Variable interval : Z.
Variable bg : Invocation.
Variable tool : nat -> error.

Inductive step : World -> World -> Prop :=
(* time passes *)
| st_tick w dt :
    (0 < dt)%Z ->
    step w {| now := now w + dt; ctx_done := ctx_done w; cancel_set := cancel_set w;
              wg := wg w; gor := gor w; mpc := mpc w; calls := calls w; trace := trace w |}
(* Start: log, ctx, cancel := WithCancel; r.wg.Add(1); go func; main
   calls Start once per Refresher, and so does the model *)
| st_start w :
    mpc w = MIdle -> gor w = GNotSpawned ->
    step w {| now := now w; ctx_done := false; cancel_set := true;
              wg := S (wg w); gor := GLoop; mpc := MIdle; calls := calls w;
              trace := app (log_line log_set "refreshing token (%s) every %s"
                              [AStr tok; ADur interval]) (trace w) |}
(* goroutine: select { case <-time.After(interval): ... } *)
| st_after w :
    gor w = GLoop ->
    step w {| now := now w; ctx_done := ctx_done w; cancel_set := cancel_set w;
              wg := wg w; gor := GSelect (now w + interval); mpc := mpc w;
              calls := calls w; trace := trace w |}
(* timer case: r.Refresh(false) logs and starts htgettoken *)
| st_timer w d :
    gor w = GSelect d -> (d <= now w)%Z ->
    step w {| now := now w; ctx_done := ctx_done w; cancel_set := cancel_set w;
              wg := wg w; gor := GRefreshing (calls w); mpc := mpc w;
              calls := S (calls w);
              trace := RInvoke bg :: app (log_line log_set "refeshing bearer token (%s)" [AStr tok])
                                         (trace w) |}
(* htgettoken exits; an error is logged and the loop goes on *)
| st_refreshed w n :
    gor w = GRefreshing n ->
    step w {| now := now w; ctx_done := ctx_done w; cancel_set := cancel_set w;
              wg := wg w; gor := GLoop; mpc := mpc w; calls := calls w;
              trace := match tool n with
                       | Some e => app (log_line log_set "error refreshing token: %s" [AErr (Some e)])
                                       (trace w)
                       | None => trace w
                       end |}
(* ctx.Done() case: return, and the deferred r.wg.Done() *)
| st_done w d :
    gor w = GSelect d -> ctx_done w = true ->
    step w {| now := now w; ctx_done := true; cancel_set := cancel_set w;
              wg := pred (wg w); gor := GReturned; mpc := mpc w; calls := calls w;
              trace := trace w |}
(* Stop with r.cancel nil: calling a nil func panics *)
| st_stop_nil w :
    mpc w = MIdle -> cancel_set w = false ->
    step w {| now := now w; ctx_done := ctx_done w; cancel_set := false;
              wg := wg w; gor := gor w; mpc := MPanicked; calls := calls w;
              trace := RStdLog "stopping the token refresher..." :: trace w |}
(* Stop: log.Println, r.cancel(), then r.wg.Wait() *)
| st_stop w :
    mpc w = MIdle -> cancel_set w = true ->
    step w {| now := now w; ctx_done := true; cancel_set := true;
              wg := wg w; gor := gor w; mpc := MWaiting; calls := calls w;
              trace := RCancel :: RStdLog "stopping the token refresher..." :: trace w |}
(* r.wg.Wait() returns once the counter is zero *)
| st_wait w :
    mpc w = MWaiting -> wg w = 0 ->
    step w {| now := now w; ctx_done := ctx_done w; cancel_set := cancel_set w;
              wg := 0; gor := gor w; mpc := MIdle; calls := calls w;
              trace := RStopReturned :: trace w |}.

Inductive star : World -> World -> Prop :=
| star_refl w : star w w
| star_step w1 w2 w3 : step w1 w2 -> star w2 w3 -> star w1 w3.

Definition reachable (w : World) : Prop := star w0 w.

End Steps.

End Refresher.

(** ** Sample inputs *)

Definition newline : string := String (ascii_of_nat 10) "".

(** A run in which every operating-system call succeeds. *)
Definition sample_inputs : Inputs := {|
  in_env := ["HOME=/home/user"; "PATH=/usr/bin:/bin"];
  in_args := ["-a"; "vault.example.org"];
  in_user := Some "1000";
  in_tmp := Some "123456";
  in_log_ok := true;
  in_getent := GetentOut ("user:x:1000:1000::/home/user:/bin/zsh" ++ newline);
  in_refresh0 := None;
  in_shell_start := None
|}.

Definition set_refresh0 (i : Inputs) (e : error) : Inputs := {|
  in_env := in_env i; in_args := in_args i; in_user := in_user i;
  in_tmp := in_tmp i; in_log_ok := in_log_ok i; in_getent := in_getent i;
  in_refresh0 := e; in_shell_start := in_shell_start i
|}.

(** The same run, but the initial htgettoken run exits with status 1. *)
Definition sample_refresh_fails : Inputs := set_refresh0 sample_inputs (Some "exit status 1").


(** The refresher [main] of [part_000] builds for [sample_inputs]. *)
Definition sample_tok : string := "/tmp/bt_u1000_123456".
Definition sample_bg : Invocation :=
  refresh_000 (setenv BTF sample_tok ["HOME=/home/user"; "PATH=/usr/bin:/bin"])
              ["-a"; "vault.example.org"] false.

Definition sample_step := Refresher.step sample_tok true (10 * minute) sample_bg.

(** The state right after [Start], before the goroutine runs. *)
Definition w_started : Refresher.World := {|
  Refresher.now := 0; Refresher.ctx_done := false; Refresher.cancel_set := true;
  Refresher.wg := 1; Refresher.gor := Refresher.GLoop; Refresher.mpc := Refresher.MIdle;
  Refresher.calls := 0;
  Refresher.trace := [Refresher.RLog "refreshing token (%s) every %s"
                        [AStr sample_tok; ADur (10 * minute)]]
|}.

(** Ten minutes later the goroutine is in [select] and its timer is due. *)
Definition w_due : Refresher.World := {|
  Refresher.now := 10 * minute; Refresher.ctx_done := false; Refresher.cancel_set := true;
  Refresher.wg := 1; Refresher.gor := Refresher.GSelect (10 * minute);
  Refresher.mpc := Refresher.MIdle; Refresher.calls := 0;
  Refresher.trace := Refresher.trace w_started
|}.

(** The timer case taken: the first background htgettoken run is started. *)
Definition w_refreshing : Refresher.World := {|
  Refresher.now := 10 * minute; Refresher.ctx_done := false; Refresher.cancel_set := true;
  Refresher.wg := 1; Refresher.gor := Refresher.GRefreshing 0;
  Refresher.mpc := Refresher.MIdle; Refresher.calls := 1;
  Refresher.trace := Refresher.RInvoke sample_bg
                     :: Refresher.RLog "refeshing bearer token (%s)" [AStr sample_tok]
                     :: Refresher.trace w_started
|}.

(** Instead, [Stop] is called at the same instant: the context is
    cancelled while the timer is due, and the caller waits. *)
Definition w_cancelled : Refresher.World := {|
  Refresher.now := 10 * minute; Refresher.ctx_done := true; Refresher.cancel_set := true;
  Refresher.wg := 1; Refresher.gor := Refresher.GSelect (10 * minute);
  Refresher.mpc := Refresher.MWaiting; Refresher.calls := 0;
  Refresher.trace := Refresher.RCancel
                     :: Refresher.RStdLog "stopping the token refresher..."
                     :: Refresher.trace w_started
|}.

(** The goroutine of [w_cancelled] takes the [ctx.Done()] case and returns;
    its deferred [r.wg.Done()] brings the counter to zero. *)
Definition w_returned : Refresher.World := {|
  Refresher.now := 10 * minute; Refresher.ctx_done := true; Refresher.cancel_set := true;
  Refresher.wg := 0; Refresher.gor := Refresher.GReturned;
  Refresher.mpc := Refresher.MWaiting; Refresher.calls := 0;
  Refresher.trace := Refresher.trace w_cancelled
|}.

(** Then [r.wg.Wait()] returns, and so does [Stop]. *)
Definition w_stopped : Refresher.World := {|
  Refresher.now := 10 * minute; Refresher.ctx_done := true; Refresher.cancel_set := true;
  Refresher.wg := 0; Refresher.gor := Refresher.GReturned;
  Refresher.mpc := Refresher.MIdle; Refresher.calls := 0;
  Refresher.trace := Refresher.RStopReturned :: Refresher.trace w_cancelled
|}.

(** Ten minutes after [Stop] returned. *)
Definition w_stopped_later : Refresher.World := {|
  Refresher.now := 20 * minute; Refresher.ctx_done := true; Refresher.cancel_set := true;
  Refresher.wg := 0; Refresher.gor := Refresher.GReturned;
  Refresher.mpc := Refresher.MIdle; Refresher.calls := 0;
  Refresher.trace := Refresher.trace w_stopped
|}.

(** A [Refresher] with a nil [Log], after its first background run of
    htgettoken has failed: the goroutine is back at the top of its loop. *)
Definition w_quiet : Refresher.World := {|
  Refresher.now := 10 * minute; Refresher.ctx_done := false; Refresher.cancel_set := true;
  Refresher.wg := 1; Refresher.gor := Refresher.GLoop;
  Refresher.mpc := Refresher.MIdle; Refresher.calls := 1;
  Refresher.trace := [Refresher.RInvoke sample_bg]
|}.

(** The run of [sample_inputs], but getent prints the account line with
    an empty shell field and no newline. *)
Definition sample_trailing_colon : Inputs := {|
  in_env := in_env sample_inputs; in_args := in_args sample_inputs;
  in_user := in_user sample_inputs; in_tmp := in_tmp sample_inputs;
  in_log_ok := in_log_ok sample_inputs;
  in_getent := GetentOut "user:x:1000:1000::/home/user:";
  in_refresh0 := in_refresh0 sample_inputs; in_shell_start := in_shell_start sample_inputs
|}.

(** ** Decimal numerals and duration strings

    Used to state properties of [ParseDuration]: a numeral and its value,
    and a duration written as a sequence of integer components with units,
    such as ["1h30m"]. *)

Fixpoint all_digits (s : string) : bool :=
  match s with
  | EmptyString => true
  | String c rest => is_digit c && all_digits rest
  end.

Fixpoint dec_acc (s : string) (x : Z) : Z :=
  match s with
  | EmptyString => x
  | String c rest => dec_acc rest (x * 10 + digit_val c)%Z
  end.

Definition decimal (s : string) : Z := dec_acc s 0.

Definition digit_head (s : string) : bool :=
  match s with EmptyString => true | String c _ => is_digit c end.

Fixpoint render_components (cs : list (string * string)) : string :=
  match cs with
  | [] => ""
  | (n, u) :: rest => n ++ u ++ render_components rest
  end.

Definition unit_of (u : string) : Z :=
  match unit_map u with Some k => k | None => 0%Z end.

Fixpoint components_value (cs : list (string * string)) : Z :=
  match cs with
  | [] => 0%Z
  | (n, u) :: rest => (decimal n * unit_of u + components_value rest)%Z
  end.

Definition component_ok (c : string * string) : bool :=
  all_digits (fst c) && negb (String.eqb (fst c) "") &&
  match unit_map (snd c) with Some _ => true | None => false end.

(** * Properties *)

(** ** Strings and environments *)

Fixpoint no_char (c : ascii) (s : string) : bool :=
  match s with
  | EmptyString => true
  | String d rest => negb (Ascii.eqb c d) && no_char c rest
  end.

Definition no_colon (s : string) : bool := no_char colon s.

Lemma last_index_aux_app : forall c s1 s2 i acc,
  last_index_aux c (s1 ++ s2) i acc =
  last_index_aux c s2 (i + Z.of_nat (String.length s1)) (last_index_aux c s1 i acc).
Proof.
  intros c s1; induction s1 as [|d s1 IH]; intros s2 i acc; simpl.
  - now rewrite Z.add_0_r.
  - rewrite IH. f_equal. lia.
Qed.

Lemma last_index_aux_none : forall c s i acc,
  no_char c s = true -> last_index_aux c s i acc = acc.
Proof.
  intros c s; induction s as [|d s IH]; intros i acc H; simpl in *; auto.
  apply andb_prop in H as [H1 H2].
  destruct (Ascii.eqb c d); [discriminate|]. now apply IH.
Qed.

Lemma length_append : forall s1 s2,
  String.length (s1 ++ s2) = (String.length s1 + String.length s2)%nat.
Proof. induction s1; intros; simpl; auto. Qed.

Lemma substring_skip : forall pre s m,
  substring (String.length pre) m (pre ++ s) = substring 0 m s.
Proof. induction pre; intros; simpl; auto. Qed.

Lemma substring_prefix : forall s t,
  substring 0 (String.length s) (s ++ t) = s.
Proof. induction s; intros; simpl; [destruct t|]; f_equal; auto. Qed.

Lemma nonempty_length : forall s, s <> "" -> (0 < String.length s)%nat.
Proof. intros [|c s] H; [congruence | simpl; lia]. Qed.

(** The last byte of the passwd line is dropped: the field after the last
    colon is returned without it. *)
Lemma Getsh_main_field : forall fb pre field c,
  pre <> "" -> no_colon field = true -> c <> colon ->
  Getsh_main (GetentOut (pre ++ String colon (field ++ String c ""))) fb = Ret (field, None).
Proof.
  intros fb pre field c Hpre Hf Hc.
  pose proof (nonempty_length pre Hpre) as Hlen.
  assert (Hc' : no_char colon (String c "") = true).
  { change (negb (Ascii.eqb colon c) && true = true).
    destruct (Ascii.eqb colon c) eqn:E; [|reflexivity].
    apply Ascii.eqb_eq in E. congruence. }
  unfold Getsh_main, last_index.
  rewrite !length_append. simpl String.length. rewrite length_append. simpl String.length.
  destruct (Nat.eqb _ 0) eqn:E0; [apply Nat.eqb_eq in E0; lia|].
  rewrite last_index_aux_app. simpl last_index_aux.
  rewrite last_index_aux_app, !last_index_aux_none by assumption.
  destruct (Z.leb_spec (Z.of_nat (String.length pre)) 0); [lia|].
  unfold slice. rewrite !length_append. simpl String.length. rewrite length_append.
  simpl String.length.
  replace ((0 <=? Z.of_nat (String.length pre) + 1)%Z &&
           (Z.of_nat (String.length pre) + 1 <=?
              Z.of_nat (String.length pre + S (String.length field + 1)) - 1)%Z &&
           (Z.of_nat (String.length pre + S (String.length field + 1)) - 1 <=?
              Z.of_nat (String.length pre + S (String.length field + 1)))%Z) with true
    by (symmetry; repeat rewrite andb_true_iff; repeat split; apply Z.leb_le; lia).
  f_equal. f_equal.
  replace (Z.to_nat (Z.of_nat (String.length pre) + 1)) with (String.length (pre ++ ":"))
    by (rewrite length_append; simpl; lia).
  replace (pre ++ String colon (field ++ String c "")) with ((pre ++ ":") ++ (field ++ String c ""))
    by (clear; induction pre as [|a pre IH]; simpl; [reflexivity | now f_equal]).
  rewrite substring_skip.
  replace (Z.to_nat _) with (String.length field) by lia.
  apply substring_prefix.
Qed.

Lemma Getsh_main_trailing_colon : forall fb pre,
  pre <> "" ->
  Getsh_main (GetentOut (pre ++ ":")) fb = Panic "runtime error: slice bounds out of range".
Proof.
  intros fb pre Hpre.
  pose proof (nonempty_length pre Hpre) as Hlen.
  unfold Getsh_main, last_index.
  rewrite length_append. simpl String.length.
  destruct (Nat.eqb _ 0) eqn:E0; [apply Nat.eqb_eq in E0; lia|].
  rewrite last_index_aux_app. simpl last_index_aux.
  destruct (Z.leb_spec (Z.of_nat (String.length pre)) 0); [lia|].
  unfold slice. rewrite length_append. simpl String.length.
  replace ((0 <=? Z.of_nat (String.length pre) + 1)%Z &&
           (Z.of_nat (String.length pre) + 1 <=? Z.of_nat (String.length pre + 1) - 1)%Z &&
           (Z.of_nat (String.length pre + 1) - 1 <=? Z.of_nat (String.length pre + 1))%Z)
    with false by (symmetry; rewrite !andb_false_iff; left; right; apply Z.leb_gt; lia).
  reflexivity.
Qed.

Lemma Getsh_main_no_colon : forall fb out,
  out <> "" -> (last_index out colon <= 0)%Z ->
  Getsh_main (GetentOut out) fb = Ret (fb, Some ("bad output from getent: " ++ out)).
Proof.
  intros fb out Hout Hloc.
  pose proof (nonempty_length out Hout) as Hlen.
  unfold Getsh_main.
  destruct (Nat.eqb _ 0) eqn:E0; [apply Nat.eqb_eq in E0; lia|].
  apply Z.leb_le in Hloc. now rewrite Hloc.
Qed.

Definition env_keys (env : list string) : list string :=
  flat_map (fun kv => match env_key kv with Some k => [k] | None => [] end) env.

Lemma has_key_in : forall k kv,
  has_key k kv = true -> In k (env_keys [kv]).
Proof.
  unfold has_key, env_keys; intros k kv H; simpl.
  destruct (env_key kv) as [k'|]; [|discriminate].
  apply String.eqb_eq in H; subst; simpl; auto.
Qed.

Lemma env_get_absent : forall k env,
  ~ In k (env_keys env) -> env_get k env = None.
Proof.
  intros k env; induction env as [|kv rest IH]; intros H; simpl; auto.
  rewrite IH.
  - destruct (has_key k kv) eqn:E; auto.
    exfalso; apply H. unfold env_keys; simpl; apply in_or_app; left.
    now apply has_key_in in E; simpl in E; rewrite app_nil_r in E.
  - intro Hin; apply H; unfold env_keys in *; simpl; apply in_or_app; now right.
Qed.

Lemma copyenv_aux_keys : forall env seen,
  NoDup (env_keys (copyenv_aux seen env)) /\
  (forall k, In k (env_keys (copyenv_aux seen env)) -> ~ In k seen).
Proof.
  induction env as [|kv rest IH]; intros seen; simpl.
  - split; [constructor | tauto].
  - destruct (env_key kv) as [k|] eqn:Ek.
    + destruct (existsb (String.eqb k) seen) eqn:Es; [apply IH|].
      destruct (IH (k :: seen)) as [Hnd Hnot].
      unfold env_keys in *; simpl; rewrite Ek; simpl.
      split.
      * constructor; auto. intro Hin. apply (Hnot k Hin). now left.
      * intros k' [<-|Hin].
        -- intro Hin. assert (existsb (String.eqb k) seen = true).
           { apply existsb_exists; exists k; split; auto. apply String.eqb_refl. }
           congruence.
        -- intro Hs. apply (Hnot k' Hin). now right.
    + destruct (IH seen) as [Hnd Hnot].
      unfold env_keys in *; simpl; rewrite Ek; simpl. auto.
Qed.

Lemma copyenv_nodup : forall env, NoDup (env_keys (copyenv env)).
Proof. intros; apply copyenv_aux_keys. Qed.

(** A key without ['='] is the key of the entry [os.Setenv] writes. *)
Lemma env_key_entry : forall k v,
  no_char equals k = true -> env_key (k ++ "=" ++ v) = Some k /\ env_value (k ++ "=" ++ v) = v.
Proof.
  induction k as [|c k IH]; intros v H.
  - split; reflexivity.
  - cbn [no_char] in H. apply andb_prop in H as [H1 H2]. apply negb_true_iff in H1.
    rewrite Ascii.eqb_sym in H1.
    change (String c k ++ "=" ++ v) with (String c (k ++ "=" ++ v)).
    cbn [env_key env_value]. rewrite H1.
    destruct (IH v H2) as [-> ->]. split; reflexivity.
Qed.

Lemma has_key_entry : forall k v,
  no_char equals k = true -> has_key k (k ++ "=" ++ v) = true.
Proof.
  intros k v H. unfold has_key. rewrite (proj1 (env_key_entry k v H)).
  apply String.eqb_refl.
Qed.

Lemma env_get_app_last : forall k env kv,
  has_key k kv = true -> env_get k (app env [kv]) = Some (env_value kv).
Proof.
  intros k env kv H; induction env as [|kv0 rest IH]; simpl.
  - now rewrite H.
  - now rewrite IH.
Qed.

Lemma replace_first_get : forall k kv env env',
  NoDup (env_keys env) -> has_key k kv = true ->
  replace_first k kv env = Some env' -> env_get k env' = Some (env_value kv).
Proof.
  intros k kv env; induction env as [|kv0 rest IH]; intros env' Hnd Hk Hr; simpl in Hr.
  - discriminate.
  - unfold env_keys in Hnd; simpl in Hnd.
    destruct (has_key k kv0) eqn:E0.
    + injection Hr as <-. simpl.
      rewrite env_get_absent, Hk; auto.
      unfold has_key in E0. destruct (env_key kv0) as [k0|]; [|discriminate].
      apply String.eqb_eq in E0; subst k0. simpl in Hnd.
      inversion Hnd; auto.
    + destruct (replace_first k kv rest) as [r|] eqn:Er; [|discriminate].
      injection Hr as <-. simpl. rewrite (IH r); auto.
      destruct (env_key kv0); simpl in Hnd; [inversion Hnd|]; auto.
Qed.

Lemma setenv_get_same : forall k v env,
  no_char equals k = true -> NoDup (env_keys env) ->
  env_get k (setenv k v env) = Some v.
Proof.
  intros k v env Hk Hnd. unfold setenv.
  pose proof (has_key_entry k v Hk) as Hh.
  pose proof (proj2 (env_key_entry k v Hk)) as Hv.
  destruct (replace_first k (k ++ "=" ++ v) env) as [env'|] eqn:E.
  - rewrite (replace_first_get k (k ++ "=" ++ v) env env'); auto. now rewrite Hv.
  - rewrite env_get_app_last; auto. now rewrite Hv.
Qed.

Lemma has_key_other : forall k k' v,
  no_char equals k' = true -> k <> k' -> has_key k (k' ++ "=" ++ v) = false.
Proof.
  intros k k' v Hk' Hne. unfold has_key. rewrite (proj1 (env_key_entry k' v Hk')).
  now apply String.eqb_neq.
Qed.

Lemma replace_first_other : forall k k' v env env',
  no_char equals k' = true -> k <> k' ->
  replace_first k' (k' ++ "=" ++ v) env = Some env' -> env_get k env' = env_get k env.
Proof.
  intros k k' v env; induction env as [|kv0 rest IH]; intros env' Hk' Hne Hr; cbn [replace_first] in Hr.
  - discriminate.
  - destruct (has_key k' kv0) eqn:E0.
    + injection Hr as <-. cbn [env_get]. rewrite (has_key_other k k' v Hk' Hne : has_key k (k' ++ String "=" v) = false).
      destruct (env_get k rest); auto.
      destruct (has_key k kv0) eqn:E1; auto.
      exfalso. unfold has_key in E0, E1. destruct (env_key kv0); [|discriminate].
      apply String.eqb_eq in E0, E1. congruence.
    + destruct (replace_first k' _ rest) as [r|] eqn:Er; [|discriminate].
      injection Hr as <-. cbn [env_get]. now rewrite (IH r).
Qed.

Lemma env_get_app_other : forall k env kv,
  has_key k kv = false -> env_get k (app env [kv]) = env_get k env.
Proof.
  intros k env kv H; induction env as [|kv0 rest IH]; simpl.
  - now rewrite H.
  - now rewrite IH.
Qed.

Lemma setenv_get_other : forall k k' v env,
  no_char equals k' = true -> k <> k' ->
  env_get k (setenv k' v env) = env_get k env.
Proof.
  intros k k' v env Hk' Hne. unfold setenv.
  destruct (replace_first k' (k' ++ "=" ++ v) env) as [env'|] eqn:E.
  - eapply replace_first_other; eauto.
  - apply env_get_app_other, has_key_other; auto.
Qed.

(** ** The refresher goroutine *)

Module RefresherFacts.
Import Refresher.

Definition live (g : Gor) : bool :=
  match g with GLoop | GSelect _ | GRefreshing _ => true | _ => false end.

Definition is_error_log (e : REvent) : bool :=
  match e with RLog f _ => String.eqb f "error refreshing token: %s" | _ => false end.

Definition errors_logged (w : World) : nat := length (filter is_error_log (trace w)).

(** The shape of every reachable state: the wait-group counts the live
    goroutine, [r.cancel] is set exactly when the goroutine was spawned,
    the caller waits only after cancelling, the goroutine returns only on
    cancellation, and a returned [Stop] leaves the goroutine returned. *)
Definition Inv (w : World) : Prop :=
  wg w = (if live (gor w) then 1 else 0)%nat
  /\ (gor w = GNotSpawned <-> cancel_set w = false)
  /\ (mpc w = MWaiting -> ctx_done w = true /\ cancel_set w = true)
  /\ (gor w = GReturned -> ctx_done w = true)
  /\ (In RStopReturned (trace w) -> gor w = GReturned).

Section Facts.
Variable tok : string.
Variable log_set : bool.
Variable interval : Z.
Variable bg : Invocation.
Variable tool : nat -> error.

Abbreviation step := (step tok log_set interval bg tool).
Abbreviation star := (star tok log_set interval bg tool).
Abbreviation reachable := (reachable tok log_set interval bg tool).

Lemma Inv_w0 : Inv w0.
Proof. repeat split; simpl; try tauto; discriminate. Qed.

Lemma in_log_line : forall e f a l,
  In e (app (log_line log_set f a) l) -> e = RLog f a \/ In e l.
Proof.
  intros e f a l H. unfold log_line in H. destruct log_set; simpl in H; auto.
  destruct H; auto.
Qed.

Lemma step_Inv : forall w w', Inv w -> step w w' -> Inv w'.
Proof.
  intros w w' (Hwg & Hns & Hwait & Hret & Hstop) Hs.
  inversion Hs; subst; unfold Inv; simpl in *;
    repeat match goal with Hg : gor w = _ |- _ => rewrite Hg in * end;
    simpl in *;
    repeat match goal with
           | Hin : In _ (app (log_line _ _ _) _) |- _ =>
               apply in_log_line in Hin as [Hin|Hin]; [discriminate|]
           end;
    repeat match goal with
           | Ht : context [tool ?n] |- _ => destruct (tool n)
           | |- context [tool ?n] => destruct (tool n)
           end;
    repeat match goal with
           | Hin : In _ (app (log_line _ _ _) _) |- _ =>
               apply in_log_line in Hin as [Hin|Hin]; [discriminate|]
           end;
    intuition (try discriminate; try congruence).
  (* the remaining goals: a returned Stop is incompatible with a live
     goroutine; the counter drops to zero; the wait finds it returned *)
  all: repeat match goal with
              | Hin : In _ (app (log_line _ _ _) _) |- _ =>
                  apply in_log_line in Hin as [Hin|Hin]; [discriminate|]
              end.
  all: try solve [exfalso; match goal with
                           | Hs : In _ _ -> ?a = ?b, Hin : In _ _ |- _ =>
                               specialize (Hs Hin); discriminate
                           end].
  - match goal with Hw : wg w = _ |- _ => rewrite Hw; reflexivity end.
  - destruct (gor w) eqn:G; auto; exfalso; simpl in *; intuition congruence.
Qed.

Lemma star_Inv : forall w w', Inv w -> star w w' -> Inv w'.
Proof. intros w w' H Hs; induction Hs; eauto using step_Inv. Qed.

Lemma reachable_Inv : forall w, reachable w -> Inv w.
Proof. intros w H; eapply star_Inv; [apply Inv_w0 | exact H]. Qed.

Lemma star_trans : forall w1 w2 w3, star w1 w2 -> star w2 w3 -> star w1 w3.
Proof. intros w1 w2 w3 H; induction H; intros; eauto using star_step. Qed.

Lemma reachable_step : forall w w', reachable w -> step w w' -> reachable w'.
Proof.
  intros w w' Hr Hs. eapply star_trans; [exact Hr|]. eapply star_step; [exact Hs|constructor].
Qed.

Lemma wait_now : forall w,
  mpc w = MWaiting -> wg w = 0%nat ->
  exists w', step w w' /\ mpc w' = MIdle /\ In RStopReturned (trace w').
Proof.
  intros w Hm Hw. eexists; split; [apply st_wait; auto | simpl; auto].
Qed.

Definition stop_returns (w : World) : Prop :=
  exists w', star w w' /\ mpc w' = MIdle /\ In RStopReturned (trace w').

Lemma stop_returns_step : forall w w', step w w' -> stop_returns w' -> stop_returns w.
Proof.
  intros w w' Hs (w'' & H1 & H2 & H3). exists w''; split; auto. eapply star_step; eauto.
Qed.

Lemma wait_from_select : forall w d,
  gor w = GSelect d -> ctx_done w = true -> mpc w = MWaiting -> wg w = 1%nat ->
  stop_returns w.
Proof.
  intros w d Hg Hc Hm Hw.
  eapply stop_returns_step; [apply (st_done _ _ _ _ _ w d Hg Hc)|].
  match goal with |- stop_returns ?w1 =>
    destruct (wait_now w1) as (w2 & Hs & ? & ?); simpl; [auto | rewrite Hw; reflexivity |]
  end.
  exists w2; split; auto. eapply star_step; [exact Hs | constructor].
Qed.

Lemma wait_from_loop : forall w,
  gor w = GLoop -> ctx_done w = true -> mpc w = MWaiting -> wg w = 1%nat ->
  stop_returns w.
Proof.
  intros w Hg Hc Hm Hw.
  eapply stop_returns_step; [apply (st_after _ _ _ _ _ w Hg)|].
  eapply wait_from_select; simpl; eauto.
Qed.

(** Once cancelled, the goroutine reaches [return] whatever it was doing,
    so the [Stop] that cancelled it returns. *)
Lemma wait_returns : forall w, Inv w -> mpc w = MWaiting -> stop_returns w.
Proof.
  intros w (Hwg & Hns & Hwait & Hret & Hstop) Hm.
  destruct (Hwait Hm) as [Hc Hcs].
  destruct (gor w) as [| |d|n|] eqn:G; simpl in Hwg.
  - assert (cancel_set w = false) by (apply Hns; reflexivity); congruence.
  - now apply wait_from_loop.
  - eapply wait_from_select; eauto.
  - eapply stop_returns_step; [apply (st_refreshed _ _ _ _ _ w n G)|].
    eapply wait_from_loop; simpl; auto.
  - destruct (wait_now w Hm Hwg) as (w' & Hs & ? & ?).
    exists w'; split; auto. eapply star_step; [exact Hs|constructor].
Qed.

(** After a returned [Stop] the goroutine has returned, and no step
    starts a refresh or revives it. *)
Lemma step_after_return : forall w w',
  gor w = GReturned -> step w w' -> gor w' = GReturned /\ calls w' = calls w.
Proof.
  intros w w' Hg Hs; inversion Hs; subst; simpl; try congruence; auto.
Qed.

Lemma stop_returned_kept : forall w w',
  step w w' -> In RStopReturned (trace w) -> In RStopReturned (trace w').
Proof.
  intros w w' Hs Hin; inversion Hs; subst; simpl; auto.
  - apply in_or_app; auto.
  - right; apply in_or_app; auto.
  - destruct (tool n); auto. apply in_or_app; auto.
Qed.

Lemma after_stop_star : forall w w',
  star w w' -> gor w = GReturned -> gor w' = GReturned /\ calls w' = calls w.
Proof.
  intros w w' H; induction H as [w|w1 w2 w3 Hs Hst IH]; intros Hg; auto.
  destruct (step_after_return _ _ Hg Hs) as [Hg2 Hc2].
  destruct (IH Hg2) as [Hg3 Hc3]. split; congruence.
Qed.

(** One round of the loop against a failing htgettoken: [time.After],
    the timer firing after one interval, the run, and its logged error. *)
Lemma failing_round : forall w e,
  gor w = GLoop -> ctx_done w = false -> tool (calls w) = Some e ->
  exists w', star w w' /\ gor w' = GLoop /\ ctx_done w' = false /\
    calls w' = S (calls w) /\ now w' = (now w + Z.max 1 interval)%Z /\
    errors_logged w' = (errors_logged w + if log_set then 1 else 0)%nat.
Proof.
  intros w e Hg Hc Ht.
  eexists; split.
  { eapply star_step; [apply (st_after _ _ _ _ _ w Hg)|].
    eapply star_step; [apply (st_tick _ _ _ _ _ _ (Z.max 1 interval)); lia|].
    eapply star_step; [eapply st_timer; [reflexivity | simpl; lia]|].
    eapply star_step; [eapply st_refreshed; reflexivity|].
    apply star_refl. }
  simpl. rewrite Ht. repeat split; auto.
  unfold errors_logged; simpl.
  destruct log_set; cbn [log_line app filter is_error_log];
    [cbn [app filter]|]; rewrite ?String.eqb_refl.
  - change (String.eqb "error refreshing token: %s" "error refreshing token: %s") with true.
    change (String.eqb "refeshing bearer token (%s)" "error refreshing token: %s") with false.
    simpl. lia.
  - simpl. lia.
Qed.

(** Every run of htgettoken the goroutine starts is [r.Refresh(false)]. *)
Lemma goroutine_runs_bg : forall w inv,
  reachable w -> In (RInvoke inv) (trace w) -> inv = bg.
Proof.
  intros w inv Hr. unfold reachable in Hr.
  remember w0 as a eqn:Ha. revert Ha.
  induction Hr as [w|w1 w2 w3 Hs Hst IH]; intros Ha Hin.
  - subst; simpl in Hin; contradiction.
  - (* walk forwards: events of w3 come from w1's trace or from steps *)
    clear IH. revert Hin. subst w1.
    assert (Hgen : forall x y, star x y ->
              (forall i, In (RInvoke i) (trace x) -> i = bg) ->
              forall i, In (RInvoke i) (trace y) -> i = bg).
    { intros x y Hxy; induction Hxy as [x|x1 x2 x3 Hs' _ IH']; auto.
      intros Hx. apply IH'. intros i Hi.
      inversion Hs'; subst; simpl in Hi; auto;
        repeat match goal with
               | H : In _ (app (log_line _ _ _) _) |- _ =>
                   apply in_log_line in H as [H|H]; [discriminate|]
               end; auto.
      - destruct Hi as [Hi|Hi]; [congruence|].
        apply in_log_line in Hi as [Hi|Hi]; [discriminate|auto].
      - destruct (tool n); auto.
        apply in_log_line in Hi as [Hi|Hi]; [discriminate|auto].
      - destruct Hi as [Hi|Hi]; [discriminate|auto].
      - destruct Hi as [Hi|[Hi|Hi]]; [discriminate|discriminate|auto].
      - destruct Hi as [Hi|Hi]; [discriminate|auto]. }
    apply (Hgen w0 w3); [eapply star_step; eauto | simpl; tauto].
Qed.

(** C1 (amended). Once [Start] has been called ([r.cancel] is set), a call
    of [Stop] does not panic and its wait returns: the goroutine observes the
    cancellation and the wait-group reaches zero. After a first [Stop] has
    returned, a second [Stop] does not panic either and its wait returns at
    once, the counter being already zero. *)
Theorem Stop_after_Start_safe : forall w,
  reachable w -> mpc w = MIdle -> cancel_set w = true ->
  (forall w1, step w w1 -> mpc w1 <> MPanicked) /\
  (forall w1, step w w1 -> mpc w1 = MWaiting ->
     exists w2, star w1 w2 /\ mpc w2 = MIdle /\ In RStopReturned (trace w2)) /\
  (In RStopReturned (trace w) ->
     forall w1, step w w1 -> mpc w1 = MWaiting ->
     exists w2, step w1 w2 /\ mpc w2 = MIdle).
Proof.
  intros w Hr Hm Hc.
  pose proof (reachable_Inv w Hr) as Hinv.
  split; [|split].
  - intros w1 Hs; inversion Hs; subst; simpl; congruence.
  - intros w1 Hs Hm1. apply wait_returns; auto.
    eapply step_Inv; eauto.
  - intros Hin w1 Hs Hm1.
    destruct Hinv as (Hwg & _ & _ & _ & Hstop).
    specialize (Hstop Hin). rewrite Hstop in Hwg; simpl in Hwg.
    inversion Hs; subst; simpl in *; try congruence.
    eexists; split; [apply st_wait; simpl; auto | reflexivity].
Qed.

(** C8 (amended). The step that takes the [ctx.Done()] case starts no
    refresh and logs nothing; and once [Stop] has returned, no later step of
    either thread starts a run of htgettoken. *)
Theorem no_refresh_after_cancel_observed : forall w,
  reachable w ->
  (forall w', step w w' -> gor w <> GReturned -> gor w' = GReturned ->
     calls w' = calls w /\ trace w' = trace w) /\
  (In RStopReturned (trace w) -> forall w', star w w' -> calls w' = calls w).
Proof.
  intros w Hr. split.
  - intros w' Hs Hg Hg'; inversion Hs; subst; simpl in *; try congruence; auto.
  - intros Hin w' Hst.
    destruct (reachable_Inv w Hr) as (_ & _ & _ & _ & Hstop).
    apply (after_stop_star w w' Hst (Hstop Hin)).
Qed.

(** C9. Without cancellation the goroutine never returns, whatever
    htgettoken does; and when every run fails, the loop goes on running it
    once per interval and logging each error. *)
Theorem failing_refresh_keeps_looping :
  (forall n, tool n <> None) ->
  forall w, reachable w ->
  (ctx_done w = false -> gor w <> GReturned) /\
  (ctx_done w = false -> gor w = GLoop ->
   forall k, exists w', star w w' /\ gor w' = GLoop /\ ctx_done w' = false /\
     calls w' = (calls w + k)%nat /\
     now w' = (now w + Z.of_nat k * Z.max 1 interval)%Z /\
     errors_logged w' = (errors_logged w + if log_set then k else 0)%nat).
Proof.
  intros Hfail w Hr. split.
  - intros Hc Hg. destruct (reachable_Inv w Hr) as (_ & _ & _ & Hret & _).
    specialize (Hret Hg); congruence.
  - intros Hc Hg k. induction k as [|k IH].
    + exists w; repeat split; try apply star_refl; auto; try lia.
      destruct log_set; lia.
    + destruct IH as (w1 & Hs1 & Hg1 & Hc1 & Hk1 & Hn1 & He1).
      destruct (tool (calls w1)) as [e|] eqn:Ht; [|exfalso; eapply Hfail; eauto].
      destruct (failing_round w1 e Hg1 Hc1 Ht) as (w2 & Hs2 & Hg2 & Hc2 & Hk2 & Hn2 & He2).
      exists w2; repeat split; auto.
      * eapply star_trans; eauto.
      * lia.
      * rewrite Hn2, Hn1. lia.
      * rewrite He2, He1. destruct log_set; lia.
Qed.

End Facts.
End RefresherFacts.

(** ** The foreground thread of [main] *)

Lemma tool_runs_app : forall a b, tool_runs (app a b) = app (tool_runs a) (tool_runs b).
Proof. induction a as [|e a IH]; intros b; simpl; [|destruct e; simpl]; try rewrite IH; auto. Qed.

Lemma tool_runs_defers : forall ds fs, tool_runs (fst (run_defers ds fs)) = [].
Proof.
  induction ds as [|d ds IH]; intros fs; simpl; auto.
  destruct d; simpl.
  - specialize (IH (remove_file path fs)). destruct (run_defers ds _); simpl in *; auto.
  - specialize (IH fs). destruct (run_defers ds fs); simpl in *; auto.
Qed.

Lemma unwind_events : forall evs ds fs ex,
  events (unwind evs ds fs ex) = app evs (fst (run_defers ds fs)).
Proof. intros; unfold unwind; destruct (run_defers ds fs); reflexivity. Qed.

Lemma tool_runs_unwind : forall evs ds fs ex,
  tool_runs (events (unwind evs ds fs ex)) = tool_runs evs.
Proof.
  intros; rewrite unwind_events, tool_runs_app, tool_runs_defers, app_nil_r; reflexivity.
Qed.

Lemma first_created_app : forall a b,
  first_created (app a b) = match first_created a with Some p => Some p | None => first_created b end.
Proof. induction a as [|e a IH]; intros b; simpl; [|destruct e]; auto. Qed.

Lemma first_created_unwind : forall evs ds fs ex p,
  first_created evs = Some p -> first_created (events (unwind evs ds fs ex)) = Some p.
Proof. intros; rewrite unwind_events, first_created_app, H; reflexivity. Qed.

Lemma log_if_err_runs : forall sh err, tool_runs (log_if_err sh err) = [] /\ first_created (log_if_err sh err) = None.
Proof. intros sh [e|]; split; reflexivity. Qed.

Lemma BTF_no_eq : no_char equals BTF = true.
Proof. reflexivity. Qed.

Lemma PROMPT_COMMAND_no_eq : no_char equals "PROMPT_COMMAND" = true.
Proof. reflexivity. Qed.

Lemma BTF_ne_PROMPT_COMMAND : BTF <> "PROMPT_COMMAND".
Proof. discriminate. Qed.

Definition gets_token (args : list string) (tok : string) (inv : Invocation) : Prop :=
  inv_args inv = args /\ env_get BTF (inv_env inv) = Some tok.

(** The runs of htgettoken [main] makes, and the token file it creates. *)
Definition runs_ok (r : Run) (args : list string) : Prop :=
  forall inv, In inv (tool_runs (events r)) ->
  exists tok, first_created (events r) = Some tok /\ gets_token args tok inv.

Lemma main_go_runs_ok : forall i, runs_ok (main_go i) (in_args i).
Proof.
  intros i inv Hin. unfold main_go in *.
  destruct (in_user i) as [uid|]; [|simpl in Hin; contradiction].
  destruct (Getsh_main (in_getent i) "/bin/bash") as [[sh err]|m]; [|simpl in Hin; contradiction].
  destruct (log_if_err_runs sh err) as [Hr Hf].
  destruct (in_tmp i) as [rnd|]; [|simpl in Hin; rewrite Hr in Hin; contradiction].
  set (tok := temp_name (copyenv (in_env i)) ("bt_u" ++ uid) rnd) in *.
  assert (Hfc : first_created (app (log_if_err sh err)
            [ECreate tok;
             ERun (refresh_go (copyenv (in_env i)) tok (in_args i) true);
             ELog "refreshing token (%s) every %s" [AStr tok; ADur (10 * minute)];
             EStartRefresher (refresh_go (copyenv (in_env i)) tok (in_args i) false) (10 * minute)])
            = Some tok) by (rewrite first_created_app, Hf; reflexivity).
  destruct (in_shell_start i) as [e|];
    [ rewrite tool_runs_unwind in Hin; exists tok; split; [now apply first_created_unwind|]
    | rewrite tool_runs_unwind in Hin; exists tok; split;
      [apply first_created_unwind; rewrite first_created_app, Hfc; reflexivity|] ];
    rewrite ?tool_runs_app, Hr in Hin; simpl in Hin;
    repeat destruct Hin as [<-|Hin]; try contradiction;
    split; reflexivity.
Qed.

Lemma main_001_runs_ok : forall ri i, runs_ok (main_001 ri i) (in_args i).
Proof.
  intros ri i inv Hin. unfold main_001 in *.
  destruct (in_user i) as [uid|]; [|simpl in Hin; contradiction].
  destruct (in_tmp i) as [rnd|]; [|simpl in Hin; contradiction].
  set (tok := temp_name (copyenv (in_env i)) ("bt_u" ++ uid ++ "_") rnd) in *.
  set (penv := setenv BTF tok (copyenv (in_env i))) in *.
  assert (Hget : env_get BTF penv = Some tok)
    by (apply setenv_get_same; [apply BTF_no_eq | apply copyenv_nodup]).
  exists tok.
  destruct (in_refresh0 i) as [e|].
  { simpl in Hin |- *. destruct Hin as [<-|[]]. split; [reflexivity|]. split; auto. }
  destruct (Getsh penv (in_getent i) "/bin/bash") as [[sh gerr]|m].
  2: { rewrite tool_runs_unwind in Hin. split; [now apply first_created_unwind|].
       simpl in Hin. repeat destruct Hin as [<-|Hin]; try contradiction; split; auto. }
  destruct (in_shell_start i) as [e|]; rewrite tool_runs_unwind in Hin;
    (split; [apply first_created_unwind; reflexivity|]);
    rewrite ?tool_runs_app in Hin; rewrite (proj1 (log_if_err_runs sh gerr)) in Hin;
    simpl in Hin; repeat destruct Hin as [<-|Hin]; try contradiction; split; auto.
Qed.

Lemma main_000_runs_ok : forall cfg i, runs_ok (main_000 cfg i) (in_args i).
Proof.
  intros cfg i inv Hin. unfold main_000 in *.
  destruct (in_user i) as [uid|]; [|simpl in Hin; contradiction].
  destruct (in_tmp i) as [rnd|]; [|simpl in Hin; contradiction].
  set (tok := temp_name (copyenv (in_env i)) ("bt_u" ++ uid ++ "_") rnd) in *.
  set (penv1 := setenv BTF tok (copyenv (in_env i))) in *.
  assert (Hget1 : env_get BTF penv1 = Some tok)
    by (apply setenv_get_same; [apply BTF_no_eq | apply copyenv_nodup]).
  set (penv := if ExportBearerToken cfg then _ else penv1) in *.
  assert (Hget : env_get BTF penv = Some tok).
  { subst penv. destruct (ExportBearerToken cfg); auto.
    rewrite setenv_get_other; auto using PROMPT_COMMAND_no_eq, BTF_ne_PROMPT_COMMAND. }
  exists tok.
  destruct (in_log_ok i); [|simpl in Hin; contradiction]. simpl negb in *; cbv iota in *.
  destruct (in_refresh0 i) as [e|].
  { simpl in Hin |- *. destruct Hin as [<-|[]]. split; [reflexivity|]. split; auto. }
  destruct (Getsh penv (in_getent i) "/bin/bash") as [[sh gerr]|m].
  2: { rewrite tool_runs_unwind in Hin. split; [now apply first_created_unwind|].
       simpl in Hin. repeat destruct Hin as [<-|Hin]; try contradiction; split; auto. }
  destruct (in_shell_start i) as [e|]; destruct (LogAtPrompt cfg);
    rewrite tool_runs_unwind in Hin;
    (split; [apply first_created_unwind; reflexivity|]);
    rewrite ?tool_runs_app in Hin; rewrite (proj1 (log_if_err_runs sh gerr)) in Hin;
    simpl in Hin; repeat destruct Hin as [<-|Hin]; try contradiction; split; auto.
Qed.

(** ** Claims *)

(** C7. Every run of htgettoken -- the initial interactive one and the one
    the refresher goroutine repeats at each tick -- gets the process's
    arguments after the program name unchanged, and sees
    [BEARER_TOKEN_FILE] equal to the token file [main] created first; this
    holds in the three versions of [main], and the goroutine runs nothing
    else than the invocation [main] hands it. *)
Theorem htgettoken_gets_args_and_token_file : forall i,
  runs_ok (main_go i) (in_args i) /\
  (forall ri, runs_ok (main_001 ri i) (in_args i)) /\
  (forall cfg, runs_ok (main_000 cfg i) (in_args i)) /\
  (forall tok log_set interval bg tool w inv,
     Refresher.reachable tok log_set interval bg tool w ->
     In (Refresher.RInvoke inv) (Refresher.trace w) -> inv = bg).
Proof.
  intros i. split; [|split; [|split]].
  - apply main_go_runs_ok.
  - intros; apply main_001_runs_ok.
  - intros; apply main_000_runs_ok.
  - intros; eapply RefresherFacts.goroutine_runs_bg; eauto.
Qed.

(** C10. In [part_001], when the initial refresh fails, [log.Fatalf]
    formats [err], which still holds the nil error of [os.CreateTemp]: the
    diagnostic is the same fixed text whatever the refresh error was. *)
Theorem initial_refresh_diagnostic_001 : forall ri i uid rnd e,
  in_user i = Some uid -> in_tmp i = Some rnd -> in_refresh0 i = Some e ->
  exit (main_001 ri i) = ExitFatal /\
  fatal_message (events (main_001 ri i)) = Some "unable to get initial token: %!s(<nil>)".
Proof.
  intros ri i uid rnd e Hu Ht Hr. unfold main_001. rewrite Hu, Ht, Hr. split; reflexivity.
Qed.

Lemma initial_refresh_diagnostic_001_witness :
  exit (main_001 (10 * minute) sample_refresh_fails) = ExitFatal /\
  fatal_message (events (main_001 (10 * minute) sample_refresh_fails))
    = Some "unable to get initial token: %!s(<nil>)".
Proof.
  apply (initial_refresh_diagnostic_001 (10 * minute) sample_refresh_fails "1000" "123456"
           "exit status 1"); reflexivity.
Defined.

(** C5 (code bug in [src/main.go]). [main] of [src/main.go] discards the
    error of the initial [Refresh]: its whole run is the same whether the
    initial htgettoken run fails or not, so a failure is neither fatal nor
    logged, and the shell is spawned. *)
Theorem main_go_ignores_initial_refresh : forall i e,
  main_go (set_refresh0 i (Some e)) = main_go (set_refresh0 i None) /\
  exit (main_go sample_refresh_fails) = ExitNormal /\
  fatal_message (events (main_go sample_refresh_fails)) = None /\
  exists sh, In (ESpawnShell sh) (events (main_go sample_refresh_fails)).
Proof.
  intros i e. split; [reflexivity|]. split; [reflexivity|]. split; [reflexivity|].
  eexists. vm_compute. do 4 right. left. reflexivity.
Qed.

(** C2 (code bug in [part_000]). When the initial refresh fails, [main]
    leaves through [log.Fatalf], which exits without running the deferred
    [os.Remove] calls: the token file and the log file are left on disk. *)
Theorem fatal_exit_leaves_files : 
  exit (program_000 sample_refresh_fails) = ExitFatal /\
  files (program_000 sample_refresh_fails) = [sample_tok; sample_tok ++ ".log"] /\
  files (program_000 sample_inputs) = [].
Proof. repeat split; vm_compute; reflexivity. Qed.

(** C4 (code bug in [src/main.go]). The shell of [src/main.go] gets only
    [PS1] and [BEARER_TOKEN_FILE]: [cmd.Env] starts nil and is appended to,
    so the parent's variables, such as [HOME], are dropped. *)
Theorem main_go_shell_env_drops_parent : exists sh,
  In (ESpawnShell sh) (events (main_go sample_inputs)) /\
  inv_env sh = ["PS1=[htshell:\w]\$"; "BEARER_TOKEN_FILE=/tmp/bt_u1000123456"] /\
  env_get "HOME" (in_env sample_inputs) = Some "/home/user" /\
  env_get "HOME" (inv_env sh) = None.
Proof.
  eexists. split; [vm_compute; do 4 right; left; reflexivity|]. repeat split; reflexivity.
Qed.

(** C3 (counterexample). A refresh interval of ["0"] or ["-1s"] is
    accepted by both [init] functions: no startup error. *)
Lemma nonpositive_interval_accepted :
  init_001 ["HTSHELL_REFRESH_INTERVAL=0"] = Ret 0%Z /\
  init_001 ["HTSHELL_REFRESH_INTERVAL=-1s"] = Ret (-1000000000)%Z /\
  (exists cfg, init_000 ["HTSHELL_REFRESH_INTERVAL=0"] = Ret cfg /\ RefreshInterval cfg = 0%Z).
Proof. split; [reflexivity | split; [reflexivity | eexists; split; reflexivity]]. Qed.

(** C3 (amended). The refresh interval is [HTSHELL_REFRESH_INTERVAL] parsed
    by [time.ParseDuration], or 10 minutes when the variable is unset; a
    value the parser rejects makes [init] panic, and any value it accepts,
    zero and negative durations included, becomes [RefreshInterval]
    unchanged: there is no positivity check. *)
Theorem init_interval_unchecked : forall env,
  (lookupenv "HTSHELL_REFRESH_INTERVAL" env = None ->
     init_001 env = Ret (10 * minute)%Z /\
     exists cfg, init_000 env = Ret cfg /\ RefreshInterval cfg = (10 * minute)%Z) /\
  (forall r, lookupenv "HTSHELL_REFRESH_INTERVAL" env = Some r -> ParseDuration r = None ->
     init_001 env = Panic ("time: invalid duration " ++ r) /\
     init_000 env = Panic ("time: invalid duration " ++ r)) /\
  (forall r d, lookupenv "HTSHELL_REFRESH_INTERVAL" env = Some r -> ParseDuration r = Some d ->
     init_001 env = Ret d /\
     exists cfg, init_000 env = Ret cfg /\ RefreshInterval cfg = d) /\
  ParseDuration "0" = Some 0%Z /\ ParseDuration "-1s" = Some (-1000000000)%Z.
Proof.
  intros env. unfold init_000, init_001.
  split; [|split; [|split; [|split; reflexivity]]].
  - intros H; rewrite H. split; [reflexivity|]. eexists; split; reflexivity.
  - intros r H Hp; rewrite H, Hp. split; reflexivity.
  - intros r d H Hp; rewrite H, Hp. split; [reflexivity|]. eexists; split; reflexivity.
Qed.

Lemma init_interval_unchecked_witness :
  init_001 ["HTSHELL_REFRESH_INTERVAL=0"] = Ret 0%Z /\
  exists cfg, init_000 ["HTSHELL_REFRESH_INTERVAL=0"] = Ret cfg /\ RefreshInterval cfg = 0%Z.
Proof.
  apply (proj1 (proj2 (proj2 (init_interval_unchecked ["HTSHELL_REFRESH_INTERVAL=0"])))
           "0" 0%Z); reflexivity.
Defined.

(** C6 (code bug). [Getsh] returns the fallback only on a getent error,
    an empty output or an output whose last colon is at index 0 or absent.
    An output ending in its last colon (the account line with no shell
    field and no newline) passes that check, and the slice
    [out[loc+1 : len(out)-1]] then has its low bound above its high bound:
    [Getsh] panics instead of falling back.  An output without getent's
    final newline passes as well and loses the last byte of its shell
    field: [/bin/zs] for [/bin/zsh].  With the newline, the same line gives
    [/bin/zsh]. *)
Lemma Getsh_malformed_output :
  Getsh [] (GetentOut "user:x:1000:1000::/home/user:") "/bin/bash"
    = Panic "runtime error: slice bounds out of range" /\
  Getsh_main (GetentOut "user:x:1000:1000::/home/user:") "/bin/bash"
    = Panic "runtime error: slice bounds out of range" /\
  Getsh [] (GetentOut "user:x:1000:1000::/home/user:/bin/zsh") "/bin/bash"
    = Ret ("/bin/zs", None) /\
  Getsh_main (GetentOut "user:x:1000:1000::/home/user:/bin/zsh") "/bin/bash"
    = Ret ("/bin/zs", None) /\
  Getsh [] (GetentOut ("user:x:1000:1000::/home/user:/bin/zsh" ++ newline)) "/bin/bash"
    = Ret ("/bin/zsh", None).
Proof. repeat split; vm_compute; reflexivity. Qed.

(** The whole of [Getsh]. [Getsh] of [part_000]/[part_001] returns [SHELL] when it
    is set, and otherwise does what [Getsh] of [src/main.go] does for every
    input (that one never reads [SHELL]): a getent error or an empty output
    gives the fallback; an output whose last colon is at index 0 or absent
    gives the fallback; otherwise the result is the bytes after the last
    colon without the output's final byte (getent's newline), so
    [user:x:1000:1000::/home/user:/bin/zsh] followed by a newline gives
    [/bin/zsh]; an output ending in its last colon makes the slice panic. *)
Theorem Getsh_resolution : forall env g fb,
  (forall sh, lookupenv "SHELL" env = Some sh -> Getsh env g fb = Ret (sh, None)) /\
  (lookupenv "SHELL" env = None -> Getsh env g fb = Getsh_main g fb) /\
  (forall e, Getsh_main (GetentErr e) fb = Ret (fb, Some e)) /\
  Getsh_main (GetentOut "") fb = Ret (fb, Some "empty output from getent") /\
  (forall out, out <> "" -> (last_index out colon <= 0)%Z ->
     Getsh_main (GetentOut out) fb = Ret (fb, Some ("bad output from getent: " ++ out))) /\
  (forall pre field c, pre <> "" -> no_colon field = true -> c <> colon ->
     Getsh_main (GetentOut (pre ++ String colon (field ++ String c ""))) fb
       = Ret (field, None)) /\
  (forall pre, pre <> "" ->
     Getsh_main (GetentOut (pre ++ ":")) fb = Panic "runtime error: slice bounds out of range") /\
  Getsh_main (GetentOut ("user:x:1000:1000::/home/user:/bin/zsh" ++ newline)) fb
    = Ret ("/bin/zsh", None).
Proof.
  intros env g fb. unfold Getsh.
  split; [intros sh H; now rewrite H|].
  split; [intros H; now rewrite H|].
  split; [reflexivity|]. split; [reflexivity|].
  split; [apply Getsh_main_no_colon|].
  split; [apply Getsh_main_field|].
  split; [apply Getsh_main_trailing_colon|].
  apply (Getsh_main_field fb "user:x:1000:1000::/home/user" "/bin/zsh"); try discriminate; reflexivity.
Qed.

(** ** Sample refresher runs *)

Lemma w_started_reachable : forall tool,
  Refresher.reachable sample_tok true (10 * minute) sample_bg tool w_started.
Proof.
  intros tool. unfold Refresher.reachable.
  apply (Refresher.star_step _ _ _ _ _ _ w_started);
    [exact (Refresher.st_start sample_tok true (10 * minute) sample_bg tool Refresher.w0
              eq_refl eq_refl)
    | apply Refresher.star_refl].
Qed.

Lemma w_due_reachable : forall tool,
  Refresher.reachable sample_tok true (10 * minute) sample_bg tool w_due.
Proof.
  intros tool. eapply RefresherFacts.reachable_step.
  - eapply RefresherFacts.reachable_step; [apply w_started_reachable|].
    exact (Refresher.st_after sample_tok true (10 * minute) sample_bg tool w_started eq_refl).
  - exact (Refresher.st_tick sample_tok true (10 * minute) sample_bg tool _ (10 * minute)
             ltac:(vm_compute; reflexivity)).
Qed.

Lemma w_due_timer : forall tool,
  sample_step tool w_due w_refreshing.
Proof.
  intros tool.
  exact (Refresher.st_timer sample_tok true (10 * minute) sample_bg tool w_due (10 * minute)
           eq_refl ltac:(vm_compute; discriminate)).
Qed.

Lemma w_due_stop : forall tool,
  sample_step tool w_due w_cancelled.
Proof.
  intros tool.
  exact (Refresher.st_stop sample_tok true (10 * minute) sample_bg tool w_due eq_refl eq_refl).
Qed.

Lemma w_refreshing_reachable : forall tool,
  Refresher.reachable sample_tok true (10 * minute) sample_bg tool w_refreshing.
Proof.
  intros tool. eapply RefresherFacts.reachable_step; [apply w_due_reachable | apply w_due_timer].
Qed.

Lemma w_cancelled_reachable : forall tool,
  Refresher.reachable sample_tok true (10 * minute) sample_bg tool w_cancelled.
Proof.
  intros tool. eapply RefresherFacts.reachable_step; [apply w_due_reachable | apply w_due_stop].
Qed.

Lemma w_stopped_reachable : forall tool,
  Refresher.reachable sample_tok true (10 * minute) sample_bg tool w_stopped.
Proof.
  intros tool. eapply RefresherFacts.reachable_step.
  - eapply RefresherFacts.reachable_step; [apply w_cancelled_reachable|].
    exact (Refresher.st_done sample_tok true (10 * minute) sample_bg tool w_cancelled
             (10 * minute) eq_refl eq_refl).
  - exact (Refresher.st_wait sample_tok true (10 * minute) sample_bg tool w_returned
             eq_refl eq_refl).
Qed.

Lemma w_quiet_reachable :
  Refresher.reachable sample_tok false (10 * minute) sample_bg
    (fun _ => Some "exit status 1") w_quiet.
Proof.
  unfold Refresher.reachable.
  eapply Refresher.star_step; [apply Refresher.st_start; reflexivity|].
  eapply Refresher.star_step; [apply Refresher.st_after; reflexivity|].
  eapply Refresher.star_step; [apply (Refresher.st_tick _ _ _ _ _ _ (10 * minute)); reflexivity|].
  eapply Refresher.star_step;
    [eapply Refresher.st_timer; [reflexivity | cbn; vm_compute; discriminate]|].
  eapply Refresher.star_step; [eapply Refresher.st_refreshed; reflexivity|].
  apply Refresher.star_refl.
Qed.

(** ** Counterexamples and witnesses of the refresher claims *)

(** C1 (counterexample). [Stop] on a [Refresher] whose [Start] was never
    called panics: [r.cancel] is still nil. From the zero value, the only
    step of the caller is the panic, never the wait. *)
Lemma Stop_before_Start_panics :
  (exists w1, sample_step (fun _ => None) Refresher.w0 w1 /\
              Refresher.mpc w1 = Refresher.MPanicked) /\
  (forall w1, sample_step (fun _ => None) Refresher.w0 w1 ->
              Refresher.mpc w1 <> Refresher.MWaiting).
Proof.
  split.
  - eexists; split; [apply Refresher.st_stop_nil; reflexivity | reflexivity].
  - intros w1 Hs; inversion Hs; subst; simpl in *; discriminate.
Qed.

Lemma Stop_after_Start_safe_witness :
  Refresher.reachable sample_tok true (10 * minute) sample_bg (fun _ => None) w_due /\
  (forall w1, sample_step (fun _ => None) w_due w1 -> Refresher.mpc w1 <> Refresher.MPanicked) /\
  (exists w2, Refresher.star sample_tok true (10 * minute) sample_bg (fun _ => None) w_cancelled w2
              /\ Refresher.mpc w2 = Refresher.MIdle
              /\ In Refresher.RStopReturned (Refresher.trace w2)).
Proof.
  destruct (RefresherFacts.Stop_after_Start_safe sample_tok true (10 * minute) sample_bg
              (fun _ => None) w_due (w_due_reachable _) eq_refl eq_refl)
    as (Hsafe & Hret & _).
  split; [apply w_due_reachable|]. split; [exact Hsafe|].
  exact (Hret w_cancelled (w_due_stop _) eq_refl).
Defined.

(** C8 (counterexample). After [Stop] has cancelled the context while the
    goroutine's timer is due, both cases of [select] are ready and Go may
    take the timer case: one more htgettoken run starts after the
    cancellation. *)
Lemma refresh_starts_after_cancel :
  Refresher.reachable sample_tok true (10 * minute) sample_bg (fun _ => None) w_cancelled /\
  Refresher.ctx_done w_cancelled = true /\
  In Refresher.RCancel (Refresher.trace w_cancelled) /\
  exists w2, sample_step (fun _ => None) w_cancelled w2 /\
             Refresher.calls w2 = S (Refresher.calls w_cancelled) /\
             In (Refresher.RInvoke sample_bg) (Refresher.trace w2).
Proof.
  split; [apply w_cancelled_reachable|]. split; [reflexivity|]. split; [simpl; auto|].
  eexists; split.
  - apply (Refresher.st_timer _ _ _ _ _ w_cancelled (10 * minute)); [reflexivity | vm_compute; discriminate].
  - split; [reflexivity | simpl; auto].
Qed.

Lemma no_refresh_after_cancel_observed_witness :
  (Refresher.calls w_returned = Refresher.calls w_cancelled /\
   Refresher.trace w_returned = Refresher.trace w_cancelled) /\
  Refresher.calls w_stopped_later = Refresher.calls w_stopped.
Proof.
  split.
  - apply (proj1 (RefresherFacts.no_refresh_after_cancel_observed sample_tok true (10 * minute)
                    sample_bg (fun _ => None) w_cancelled (w_cancelled_reachable _)) w_returned).
    + exact (Refresher.st_done sample_tok true (10 * minute) sample_bg (fun _ => None)
               w_cancelled (10 * minute) eq_refl eq_refl).
    + discriminate.
    + reflexivity.
  - apply (proj2 (RefresherFacts.no_refresh_after_cancel_observed sample_tok true (10 * minute)
                    sample_bg (fun _ => None) w_stopped (w_stopped_reachable _))).
    + simpl; auto.
    + eapply Refresher.star_step;
        [apply (Refresher.st_tick _ _ _ _ _ w_stopped (10 * minute)); reflexivity|].
      apply Refresher.star_refl.
Defined.

(** With every background run failing, three rounds from [w_started]:
    three runs, three logged errors, thirty minutes. *)
Lemma failing_refresh_keeps_looping_witness :
  exists w', Refresher.star sample_tok true (10 * minute) sample_bg
               (fun _ => Some "exit status 1") w_started w' /\
    Refresher.gor w' = Refresher.GLoop /\ Refresher.ctx_done w' = false /\
    Refresher.calls w' = 3%nat /\ Refresher.now w' = (3 * (10 * minute))%Z /\
    RefresherFacts.errors_logged w' = 3%nat.
Proof.
  destruct (proj2 (RefresherFacts.failing_refresh_keeps_looping sample_tok true (10 * minute)
                     sample_bg (fun _ => Some "exit status 1") (fun _ => ltac:(discriminate))
                     w_started (w_started_reachable _)) eq_refl eq_refl 3)
    as (w' & Hs & Hg & Hc & Hk & Hn & He).
  exists w'. repeat split; auto.
Defined.

Lemma htgettoken_gets_args_and_token_file_witness :
  runs_ok (main_go sample_inputs) (in_args sample_inputs) /\
  Refresher.reachable sample_tok true (10 * minute) sample_bg (fun _ => None) w_refreshing /\
  In (Refresher.RInvoke sample_bg) (Refresher.trace w_refreshing) /\
  sample_bg = sample_bg.
Proof.
  destruct (htgettoken_gets_args_and_token_file sample_inputs) as (Hgo & _ & _ & Hbg).
  split; [exact Hgo|]. split; [apply w_refreshing_reachable|]. split; [simpl; auto|].
  exact (Hbg sample_tok true (10 * minute)%Z sample_bg (fun _ => None) w_refreshing sample_bg
           (w_refreshing_reachable _) (or_introl eq_refl)).
Defined.

(** * Further properties of the code *)

(** ** [boolish] and [init] *)

Lemma lower_ascii_idem : forall c, lower_ascii (lower_ascii c) = lower_ascii c.
Proof. intros c; destruct c as [[] [] [] [] [] [] [] []]; reflexivity. Qed.

Lemma to_lower_idem : forall s, to_lower (to_lower s) = to_lower s.
Proof. induction s as [|c s IH]; simpl; [reflexivity|]. now rewrite lower_ascii_idem, IH. Qed.

Lemma to_lower_length : forall s, String.length (to_lower s) = String.length s.
Proof. induction s; simpl; auto. Qed.

(** [boolish] ignores ASCII case, and the only strings it reads as false
    have one, two or five bytes (["0"], ["no"], ["false"] in any case):
    every other value, the empty string included, is true. *)
Theorem boolish_case_and_false_lengths : forall s,
  boolish (to_lower s) = boolish s /\
  (boolish s = false -> In (String.length s) [1; 2; 5]%nat).
Proof.
  intros s. split.
  - unfold boolish. now rewrite to_lower_idem.
  - unfold boolish. intros H. apply negb_false_iff in H.
    rewrite <- to_lower_length.
    destruct (String.eqb_spec (to_lower s) "no") as [E|];
      [rewrite E; simpl; auto|].
    destruct (String.eqb_spec (to_lower s) "false") as [E|];
      [rewrite E; simpl; auto|].
    destruct (String.eqb_spec (to_lower s) "0") as [E|];
      [rewrite E; simpl; auto|].
    simpl in H; discriminate.
Qed.

Lemma boolish_case_and_false_lengths_witness :
  boolish (to_lower "FaLsE") = boolish "FaLsE" /\ In (String.length "FaLsE") [1; 2; 5]%nat.
Proof.
  destruct (boolish_case_and_false_lengths "FaLsE") as [H1 H2].
  split; [exact H1 | apply H2; reflexivity].
Defined.

(** [init] of [part_000] fails exactly when [init] of [part_001] fails,
    with the same panic: only [HTSHELL_REFRESH_INTERVAL] can make it fail,
    and when it succeeds its [RefreshInterval] is the interval [part_001]
    computes. *)
Theorem init_000_interval_as_001 : forall env,
  (forall m, init_000 env = Panic m <-> init_001 env = Panic m) /\
  (forall cfg, init_000 env = Ret cfg -> init_001 env = Ret (RefreshInterval cfg)).
Proof.
  intros env. unfold init_000, init_001.
  destruct (lookupenv "HTSHELL_REFRESH_INTERVAL" env) as [r|];
    [destruct (ParseDuration r) as [d|]|]; cbv zeta; split;
    try (intros m; split; intros H; discriminate H);
    try (intros m; split; intros H; injection H as <-; reflexivity);
    intros cfg H; try discriminate H; injection H as <-; reflexivity.
Qed.

Lemma init_000_interval_as_001_witness :
  init_001 ["HTSHELL_REFRESH_INTERVAL=90s"; "HTSHELL_PREFIX=>> "] = Ret 90000000000%Z.
Proof.
  apply (proj2 (init_000_interval_as_001 ["HTSHELL_REFRESH_INTERVAL=90s"; "HTSHELL_PREFIX=>> "])
           {| RefreshInterval := 90000000000; ExportBearerToken := true;
              LogAtPrompt := false; LogPrefix := ">> " |}).
  reflexivity.
Defined.

(** ** [Getsh] *)

(** Whenever [Getsh] (either version) reports an error, the shell it
    returns is the fallback: a non-fallback shell always comes with a nil
    error. *)
Theorem Getsh_error_means_fallback : forall env g fb sh e,
  (Getsh_main g fb = Ret (sh, Some e) -> sh = fb) /\
  (Getsh env g fb = Ret (sh, Some e) -> sh = fb).
Proof.
  intros env g fb sh e.
  assert (Hm : Getsh_main g fb = Ret (sh, Some e) -> sh = fb).
  { unfold Getsh_main. destruct g as [out|err].
    - destruct (Nat.eqb (String.length out) 0); [intros H; now injection H|].
      destruct (last_index out colon <=? 0)%Z; [intros H; now injection H|].
      destruct (slice _ _ _); intros H; discriminate.
    - intros H; now injection H. }
  split; [exact Hm|]. unfold Getsh.
  destruct (lookupenv "SHELL" env); [intros H; discriminate | exact Hm].
Qed.

Lemma Getsh_error_means_fallback_witness :
  "/bin/bash" = "/bin/bash".
Proof.
  apply (proj2 (Getsh_error_means_fallback [] (GetentOut "") "/bin/bash" "/bin/bash"
                  "empty output from getent")).
  reflexivity.
Defined.

(** ** [time.ParseDuration] *)

Lemma digit_val_range : forall c, is_digit c = true -> (0 <= digit_val c <= 9)%Z.
Proof.
  intros c H. unfold is_digit in H. apply andb_prop in H as [H1 H2].
  apply Nat.leb_le in H1, H2. unfold digit_val. lia.
Qed.

Lemma dec_acc_ge : forall n x, all_digits n = true -> (0 <= x)%Z -> (x <= dec_acc n x)%Z.
Proof.
  induction n as [|c n IH]; intros x Hd Hx; simpl in *; [lia|].
  apply andb_prop in Hd as [Hc Hd]. pose proof (digit_val_range c Hc).
  specialize (IH (x * 10 + digit_val c)%Z Hd ltac:(lia)). lia.
Qed.

Lemma leading_int_app : forall n r x,
  all_digits n = true -> (0 <= x)%Z -> (dec_acc n x <= two63)%Z ->
  digit_head r = false \/ r = "" ->
  leading_int (n ++ r) x = Some (dec_acc n x, r).
Proof.
  induction n as [|c n IH]; intros r x Hd Hx Hb Hr; simpl in *.
  - destruct r as [|c r]; [reflexivity|]. simpl.
    destruct Hr as [Hr|Hr]; [simpl in Hr; now rewrite Hr | discriminate].
  - apply andb_prop in Hd as [Hc Hd]. rewrite Hc.
    pose proof (digit_val_range c Hc).
    pose proof (dec_acc_ge n (x * 10 + digit_val c)%Z Hd ltac:(lia)).
    assert (x <= two63 / 10)%Z by (apply Z.div_le_lower_bound; lia).
    replace (x >? two63 / 10)%Z with false by (symmetry; rewrite Z.gtb_ltb; apply Z.ltb_ge; lia).
    replace (x * 10 + digit_val c >? two63)%Z with false by (symmetry; rewrite Z.gtb_ltb; apply Z.ltb_ge; lia).
    apply IH; auto; lia.
Qed.


Lemma digit_cases : forall c, is_digit c = true ->
  In c ["0"; "1"; "2"; "3"; "4"; "5"; "6"; "7"; "8"; "9"]%char.
Proof.
  intros c H; destruct c as [[] [] [] [] [] [] [] []]; vm_compute in H;
    try discriminate; simpl; tauto.
Qed.

(** [ParseDuration] on a string that starts with a digit: no sign. *)
Lemma ParseDuration_digit_head : forall c r, is_digit c = true ->
  ParseDuration (String c r) =
    if String.eqb (String c r) "0" then Some 0%Z
    else match parse_loop (S (String.length (String c r))) (String c r) 0 with
         | None => None
         | Some d => if (d >? two63 - 1)%Z then None else Some d
         end.
Proof.
  intros c r H. apply digit_cases in H.
  repeat (destruct H as [<-|H]; [reflexivity|]). destruct H.
Qed.


Lemma unit_map_cases : forall u k, unit_map u = Some k ->
  (u = "ns" /\ k = 1%Z) \/ (u = "us" /\ k = 1000%Z) \/ (u = micro_sign /\ k = 1000%Z) \/
  (u = greek_mu /\ k = 1000%Z) \/ (u = "ms" /\ k = 1000000%Z) \/
  (u = "s" /\ k = 1000000000%Z) \/ (u = "m" /\ k = 60000000000%Z) \/
  (u = "h" /\ k = 3600000000000%Z).
Proof.
  intros u k H. unfold unit_map in H.
  repeat match type of H with
  | (if String.eqb u ?w then _ else _) = _ =>
      destruct (String.eqb_spec u w) as [->|?]; [injection H as <-; tauto|]
  end; discriminate.
Qed.

Lemma span_unit_digit_head : forall r, digit_head r = true -> span_unit r = ("", r).
Proof.
  intros [|c r] H; [reflexivity|]. simpl in *. rewrite H, orb_true_r. reflexivity.
Qed.

Lemma parse_loop_component : forall fuel n u k rest d,
  all_digits n = true -> n <> "" -> unit_map u = Some k -> digit_head rest = true ->
  (0 <= d)%Z -> (d + decimal n * k <= two63 - 1)%Z ->
  parse_loop (S fuel) (n ++ u ++ rest) d = parse_loop fuel rest (d + decimal n * k)%Z.
Proof.
  intros fuel n u k rest d Hd Hne Hu Hr Hd0 Hb.
  assert (Hdec : (0 <= decimal n)%Z) by (apply dec_acc_ge; auto; lia).
  assert (Hk : (1 <= k)%Z) by
    (destruct (unit_map_cases u k Hu) as [[_ ->]|[[_ ->]|[[_ ->]|[[_ ->]|[[_ ->]|[[_ ->]|[[_ ->]|[_ ->]]]]]]]]; lia).
  assert (Hh : digit_head (u ++ rest) = false) by
    (destruct (unit_map_cases u k Hu) as [[-> _]|[[-> _]|[[-> _]|[[-> _]|[[-> _]|[[-> _]|[[-> _]|[-> _]]]]]]]]; reflexivity).
  assert (HL : leading_int (n ++ u ++ rest) 0 = Some (decimal n, u ++ rest)).
  { apply leading_int_app; auto; unfold decimal in *; nia. }
  destruct n as [|c n']; [contradiction|].
  simpl in Hd. apply andb_prop in Hd as [Hc Hd'].
  change (String c n' ++ u ++ rest) with (String c (n' ++ u ++ rest)) in HL |- *.
  cbn [parse_loop]. rewrite Hc, orb_true_r. cbn [negb]. rewrite HL.
  assert (Hpre : Nat.eqb (String.length (u ++ rest)) (String.length (String c (n' ++ u ++ rest))) = false).
  { apply Nat.eqb_neq. cbn [String.length]. rewrite !length_append. lia. }
  rewrite Hpre. cbn [negb orb].
  assert (Hv : (decimal (String c n') >? two63 / k)%Z = false).
  { rewrite Z.gtb_ltb. apply Z.ltb_ge. apply Z.div_le_lower_bound; [lia|]. unfold two63 in *. nia. }
  assert (Hm : ((d + decimal (String c n') * k) mod 2 ^ 64 = d + decimal (String c n') * k)%Z).
  { apply Z.mod_small. unfold two63 in *. split; [nia|]. 
    assert (2 ^ 63 < 2 ^ 64)%Z by (apply Z.pow_lt_mono_r; lia). lia. }
  assert (Hd2 : (d + decimal (String c n') * k >? two63)%Z = false).
  { rewrite Z.gtb_ltb. apply Z.ltb_ge. lia. }
  assert (Hsp : span_unit (u ++ rest) = (u, rest)).
  { destruct (unit_map_cases u k Hu) as [[-> _]|[[-> _]|[[-> _]|[[-> _]|[[-> _]|[[-> _]|[[-> _]|[-> _]]]]]]]];
      simpl; rewrite (span_unit_digit_head rest Hr); reflexivity. }
  assert (Hlen : Nat.eqb (String.length u) 0 = false).
  { destruct (unit_map_cases u k Hu) as [[-> _]|[[-> _]|[[-> _]|[[-> _]|[[-> _]|[[-> _]|[[-> _]|[-> _]]]]]]]];
      reflexivity. }
  assert (Hf : (0 >? 0)%Z = false) by reflexivity.
  assert (E194 : ascii_of_nat 194 = "194"%char) by reflexivity.
  assert (E181 : ascii_of_nat 181 = "181"%char) by reflexivity.
  assert (E206 : ascii_of_nat 206 = "206"%char) by reflexivity.
  assert (E188 : ascii_of_nat 188 = "188"%char) by reflexivity.
  destruct (unit_map_cases u k Hu) as [[-> ->]|[[-> ->]|[[-> ->]|[[-> ->]|[[-> ->]|[[-> ->]|[[-> ->]|[-> ->]]]]]]]];
  unfold micro_sign, greek_mu in *; cbn [append] in *;
  rewrite ?E194, ?E181, ?E206, ?E188 in *;
  rewrite Hsp; cbv beta iota; rewrite Hlen, Hu; cbv beta iota;
  rewrite Hv, Hf; cbn [andb]; rewrite Hm, Hd2; reflexivity.
Qed.

Lemma components_value_nonneg : forall cs,
  forallb component_ok cs = true -> (0 <= components_value cs)%Z.
Proof.
  induction cs as [|[n u] cs IH]; intros H; simpl in *; [lia|].
  apply andb_prop in H as [Hc H]. unfold component_ok in Hc; simpl in Hc.
  apply andb_prop in Hc as [Hc Hu]. apply andb_prop in Hc as [Hd _].
  assert (0 <= decimal n)%Z by (apply dec_acc_ge; auto; lia).
  assert (0 <= unit_of u)%Z.
  { unfold unit_of. destruct (unit_map u) as [k|] eqn:E; [|lia].
    destruct (unit_map_cases u k E) as [[_ ->]|[[_ ->]|[[_ ->]|[[_ ->]|[[_ ->]|[[_ ->]|[[_ ->]|[_ ->]]]]]]]]; lia. }
  specialize (IH H). nia.
Qed.

Lemma render_digit_head : forall cs,
  forallb component_ok cs = true -> digit_head (render_components cs) = true.
Proof.
  intros [|[n u] cs] H; [reflexivity|]. simpl in H.
  apply andb_prop in H as [Hc _]. unfold component_ok in Hc; simpl in Hc.
  apply andb_prop in Hc as [Hc _]. apply andb_prop in Hc as [Hd Hne].
  destruct n as [|c n]; [discriminate|]. simpl in Hd |- *.
  now apply andb_prop in Hd as [-> _].
Qed.

Lemma render_length : forall cs,
  forallb component_ok cs = true -> (2 * length cs <= String.length (render_components cs))%nat.
Proof.
  induction cs as [|[n u] cs IH]; intros H; simpl in *; [lia|].
  apply andb_prop in H as [Hc H]. unfold component_ok in Hc; simpl in Hc.
  apply andb_prop in Hc as [Hc Hu]. apply andb_prop in Hc as [_ Hne].
  rewrite !length_append. specialize (IH H).
  destruct n as [|c n]; [discriminate|].
  destruct u as [|c' u]; [discriminate|]. simpl. lia.
Qed.

Lemma parse_loop_components : forall cs fuel d,
  forallb component_ok cs = true -> (0 <= d)%Z ->
  (d + components_value cs <= two63 - 1)%Z -> (length cs < fuel)%nat ->
  parse_loop fuel (render_components cs) d = Some (d + components_value cs)%Z.
Proof.
  induction cs as [|[n u] cs IH]; intros fuel d H Hd Hb Hf.
  - destruct fuel; [lia|]. simpl. f_equal; lia.
  - destruct fuel as [|fuel]; [lia|]. cbn [forallb components_value List.length] in H, Hb, Hf.
    apply andb_prop in H as [Hc H]. pose proof (components_value_nonneg cs H) as Hv.
    unfold component_ok in Hc; simpl in Hc.
    apply andb_prop in Hc as [Hc Hu]. apply andb_prop in Hc as [Hdig Hne].
    destruct (unit_map u) as [k|] eqn:Ek; [|discriminate].
    assert (Hk : unit_of u = k) by (unfold unit_of; now rewrite Ek).
    rewrite Hk in Hb.
    assert (0 <= decimal n)%Z by (apply dec_acc_ge; auto; lia).
    assert (0 <= k)%Z by
      (destruct (unit_map_cases u k Ek) as [[_ ->]|[[_ ->]|[[_ ->]|[[_ ->]|[[_ ->]|[[_ ->]|[[_ ->]|[_ ->]]]]]]]]; lia).
    cbn [render_components].
    rewrite (parse_loop_component fuel n u k (render_components cs) d); auto.
    + rewrite IH; [| assumption | nia | lia | lia].
      f_equal. cbn [components_value]. rewrite Hk. lia.
    + intros E; subst n; discriminate.
    + apply render_digit_head; auto.
    + lia.
Qed.

(** A duration written as integer components with units, such as
    ["1h30m"] or ["2m5s10ms"], parses to the sum of the components, and
    with a leading ["-"] to its opposite, as long as the sum fits in an
    [int64]. *)
Theorem ParseDuration_components : forall cs,
  cs <> [] -> forallb component_ok cs = true -> (components_value cs <= two63 - 1)%Z ->
  ParseDuration (render_components cs) = Some (components_value cs) /\
  ParseDuration ("-" ++ render_components cs) = Some (- components_value cs)%Z.
Proof.
  intros cs Hne H Hb.
  pose proof (render_length cs H) as Hlen.
  assert (Hlen' : (2 <= String.length (render_components cs))%nat)
    by (destruct cs; [contradiction|simpl in *; lia]).
  assert (Hloop : parse_loop (S (String.length (render_components cs))) (render_components cs) 0
                  = Some (components_value cs)).
  { rewrite parse_loop_components; auto; try lia. }
  assert (H0 : String.eqb (render_components cs) "0" = false).
  { apply String.eqb_neq. intros E; rewrite E in Hlen'; simpl in Hlen'; lia. }
  assert (He : String.eqb (render_components cs) "" = false).
  { apply String.eqb_neq. intros E; rewrite E in Hlen'; simpl in Hlen'; lia. }
  pose proof (render_digit_head cs H) as Hh.
  split.
  - destruct (render_components cs) as [|c r] eqn:E; [discriminate|].
    simpl in Hh. rewrite (ParseDuration_digit_head c r Hh), H0, Hloop.
    replace (components_value cs >? two63 - 1)%Z with false; [reflexivity|].
    symmetry; rewrite Z.gtb_ltb; apply Z.ltb_ge; lia.
  - unfold ParseDuration. cbn [append]. cbv beta iota. rewrite H0, He, Hloop. reflexivity.
Qed.


Lemma ParseDuration_components_witness :
  ParseDuration "1h30m" = Some 5400000000000%Z /\ ParseDuration "-1h30m" = Some (-5400000000000)%Z.
Proof.
  apply (ParseDuration_components [("1", "h"); ("30", "m")]);
    [discriminate | reflexivity | vm_compute; discriminate].
Defined.

Lemma has_key_key : forall k kv, has_key k kv = true -> env_key kv = Some k.
Proof.
  unfold has_key; intros k kv H. destruct (env_key kv); [|discriminate].
  apply String.eqb_eq in H; now subst.
Qed.

Lemma env_keys_app : forall a b, env_keys (app a b) = app (env_keys a) (env_keys b).
Proof. intros a b; unfold env_keys; apply flat_map_app. Qed.

Lemma replace_first_keys : forall k kv env env',
  has_key k kv = true -> replace_first k kv env = Some env' -> env_keys env' = env_keys env.
Proof.
  intros k kv env; induction env as [|kv0 rest IH]; intros env' Hk Hr; simpl in Hr; [discriminate|].
  destruct (has_key k kv0) eqn:E0.
  - injection Hr as <-. unfold env_keys; simpl.
    now rewrite (has_key_key k kv Hk), (has_key_key k kv0 E0).
  - destruct (replace_first k kv rest) as [r|] eqn:Er; [|discriminate].
    injection Hr as <-. unfold env_keys in *; simpl. f_equal. now apply IH.
Qed.

Lemma replace_first_none : forall k kv env,
  replace_first k kv env = None -> ~ In k (env_keys env).
Proof.
  intros k kv env; induction env as [|kv0 rest IH]; intros Hr; simpl in Hr; [simpl; tauto|].
  destruct (has_key k kv0) eqn:E0; [discriminate|].
  destruct (replace_first k kv rest); [discriminate|].
  specialize (IH eq_refl). unfold env_keys in *; simpl.
  unfold has_key in E0. destruct (env_key kv0) as [k0|]; simpl; [|exact IH].
  intros [E|H]; [subst; rewrite String.eqb_refl in E0; discriminate | tauto].
Qed.

Lemma NoDup_snoc : forall (l : list string) x, NoDup l -> ~ In x l -> NoDup (app l [x]).
Proof.
  induction l as [|a l IH]; intros x Hnd Hx; simpl; [constructor; [simpl; tauto | constructor]|].
  inversion Hnd; subst. constructor.
  - rewrite in_app_iff. simpl. intros [H|[H|H]]; [tauto| |tauto]. subst; simpl in Hx; tauto.
  - apply IH; auto. simpl in Hx; tauto.
Qed.

Lemma setenv_nodup : forall k v env,
  no_char equals k = true -> NoDup (env_keys env) -> NoDup (env_keys (setenv k v env)).
Proof.
  intros k v env Hk Hnd. unfold setenv.
  destruct (replace_first k (k ++ "=" ++ v) env) as [env'|] eqn:E.
  - erewrite replace_first_keys; eauto. apply has_key_entry; auto.
  - rewrite env_keys_app. unfold env_keys at 2. cbn [flat_map].
    rewrite (proj1 (env_key_entry k v Hk)). cbn [app]. apply NoDup_snoc; auto.
    eapply replace_first_none; eauto.
Qed.

Lemma getenv_setenv_other : forall k k' v env,
  no_char equals k' = true -> k <> k' -> getenv k (setenv k' v env) = getenv k env.
Proof. intros; unfold getenv; now rewrite setenv_get_other. Qed.

Lemma env_get_entry_app : forall k v env,
  no_char equals k = true -> env_get k (app env [k ++ "=" ++ v]) = Some v.
Proof.
  intros k v env Hk. rewrite env_get_app_last by (apply has_key_entry; auto).
  now rewrite (proj2 (env_key_entry k v Hk)).
Qed.

Lemma env_get_other_app : forall k k' v env,
  no_char equals k' = true -> k <> k' -> env_get k (app env [k' ++ "=" ++ v]) = env_get k env.
Proof. intros; apply env_get_app_other, has_key_other; auto. Qed.

Lemma ps1_entry : forall x, "PS1=" ++ x = "PS1" ++ "=" ++ x.
Proof. reflexivity. Qed.

Lemma pc_entry : forall y,
  "PROMPT_COMMAND=cat " ++ y = "PROMPT_COMMAND" ++ "=" ++ ("cat " ++ y).
Proof. reflexivity. Qed.

(** ** The environment of the [part_000] shell *)

(** In [part_000], when every call succeeds, the shell is spawned with
    [BEARER_TOKEN_FILE] set to the token file, [PS1] set to [LogPrefix]
    followed by the inherited [PS1], and [PROMPT_COMMAND] built from the
    inherited one: prefixed by the [export BEARER_TOKEN] command when
    [ExportBearerToken] is set, then by the [cat]/[truncate] of the
    refresher log when [LogAtPrompt] is set.  Every other variable has the
    value the process inherited. *)
Theorem main_000_shell_environment : forall cfg i uid rnd,
  in_user i = Some uid -> in_tmp i = Some rnd -> in_log_ok i = true ->
  in_refresh0 i = None -> in_shell_start i = None ->
  (forall m, Getsh_main (in_getent i) "/bin/bash" <> Panic m) ->
  let penv := copyenv (in_env i) in
  let tok := temp_name penv ("bt_u" ++ uid ++ "_") rnd in
  let rlog := tok ++ ".log" in
  let pc := if ExportBearerToken cfg
            then "export BEARER_TOKEN=$(cat " ++ tok ++ ");" ++ getenv "PROMPT_COMMAND" penv
            else getenv "PROMPT_COMMAND" penv in
  exists sh, In (ESpawnShell sh) (events (main_000 cfg i)) /\
    env_get BTF (inv_env sh) = Some tok /\
    env_get "PS1" (inv_env sh) = Some (LogPrefix cfg ++ getenv "PS1" penv) /\
    env_get "PROMPT_COMMAND" (inv_env sh) =
      (if LogAtPrompt cfg
       then Some ("cat " ++ rlog ++ " && truncate -s0 " ++ rlog ++ ";" ++ pc)
       else if ExportBearerToken cfg then Some pc
       else env_get "PROMPT_COMMAND" penv) /\
    (forall k, k <> BTF -> k <> "PS1" -> k <> "PROMPT_COMMAND" ->
       env_get k (inv_env sh) = env_get k penv).
Proof.
  intros cfg i uid rnd Hu Ht Hl Hr Hs Hg penv tok rlog pc.
  assert (Hnd : NoDup (env_keys penv)) by apply copyenv_nodup.
  set (penv1 := setenv BTF tok penv).
  assert (Hnd1 : NoDup (env_keys penv1)) by (apply setenv_nodup; auto).
  set (penv2 := if ExportBearerToken cfg
                then setenv "PROMPT_COMMAND"
                       ("export BEARER_TOKEN=$(cat " ++ tok ++ ");" ++ getenv "PROMPT_COMMAND" penv1) penv1
                else penv1).
  assert (Hpc1 : getenv "PROMPT_COMMAND" penv1 = getenv "PROMPT_COMMAND" penv)
    by (apply getenv_setenv_other; [reflexivity | discriminate]).
  assert (HBTF : env_get BTF penv2 = Some tok).
  { unfold penv2; destruct (ExportBearerToken cfg);
      [rewrite setenv_get_other by (reflexivity || discriminate)|];
      apply setenv_get_same; auto. }
  assert (HPC : env_get "PROMPT_COMMAND" penv2 =
                if ExportBearerToken cfg then Some pc else env_get "PROMPT_COMMAND" penv).
  { unfold penv2, pc; destruct (ExportBearerToken cfg).
    - rewrite setenv_get_same by auto. now rewrite Hpc1.
    - unfold penv1. apply setenv_get_other; [reflexivity | discriminate]. }
  assert (Hgetpc : getenv "PROMPT_COMMAND" penv2 = pc).
  { unfold getenv at 1. rewrite HPC. unfold pc. destruct (ExportBearerToken cfg); auto. }
  assert (Hother : forall k, k <> BTF -> k <> "PROMPT_COMMAND" -> env_get k penv2 = env_get k penv).
  { intros k H1 H2. unfold penv2, penv1.
    destruct (ExportBearerToken cfg); rewrite ?setenv_get_other by (auto || reflexivity); auto. }
  assert (Hps1 : getenv "PS1" penv2 = getenv "PS1" penv).
  { unfold getenv. rewrite Hother; [reflexivity | discriminate | discriminate]. }
  unfold main_000. fold penv. rewrite Hu, Ht. fold tok. fold penv1. fold penv2. rewrite Hl.
  cbn [negb]. rewrite Hr.
  destruct (Getsh penv2 (in_getent i) "/bin/bash") as [[shp gerr]|m] eqn:EG;
    [| exfalso; unfold Getsh in EG; destruct (lookupenv "SHELL" penv2);
       [discriminate | eapply Hg; eauto]].
  rewrite Hs. eexists. split.
  { rewrite unwind_events. apply in_or_app; left. apply in_or_app; right. left; reflexivity. }
  cbn [inv_env].
  rewrite (ps1_entry (LogPrefix cfg ++ getenv "PS1" penv2)), Hps1.
  destruct (LogAtPrompt cfg); cbn [env_append cmd_environ].
  - rewrite pc_entry, Hgetpc.
    split; [rewrite env_get_other_app, env_get_other_app by (reflexivity || discriminate); exact HBTF|].
    split; [rewrite env_get_other_app by (reflexivity || discriminate); apply env_get_entry_app; reflexivity|].
    split; [apply env_get_entry_app; reflexivity|].
    intros k H1 H2 H3. rewrite env_get_other_app, env_get_other_app by (reflexivity || auto).
    apply Hother; auto.
  - split; [rewrite env_get_other_app by (reflexivity || discriminate); exact HBTF|].
    split; [apply env_get_entry_app; reflexivity|].
    split; [rewrite env_get_other_app by (reflexivity || discriminate); exact HPC|].
    intros k H1 H2 H3. rewrite env_get_other_app by (reflexivity || auto).
    apply Hother; auto.
Qed.

Lemma main_000_shell_environment_witness :
  exists sh, In (ESpawnShell sh) (events (main_000 default_config sample_inputs)) /\
    env_get BTF (inv_env sh) = Some "/tmp/bt_u1000_123456" /\
    env_get "HOME" (inv_env sh) = Some "/home/user".
Proof.
  assert (Hg : forall m, Getsh_main (in_getent sample_inputs) "/bin/bash" <> Panic m)
    by (intros m; vm_compute; discriminate).
  pose proof (main_000_shell_environment default_config sample_inputs "1000" "123456"
                eq_refl eq_refl eq_refl eq_refl eq_refl Hg) as H.
  cbv zeta in H. destruct H as (sh & Hin & Hb & _ & _ & Hk).
  exists sh. split; [exact Hin|]. split; [exact Hb|].
  rewrite Hk by discriminate. reflexivity.
Defined.

Lemma unwind_files : forall evs ds fs ex,
  files (unwind evs ds fs ex) = snd (run_defers ds fs).
Proof. intros; unfold unwind; destruct (run_defers ds fs); reflexivity. Qed.

Lemma unwind_exit : forall evs ds fs ex, exit (unwind evs ds fs ex) = ex.
Proof. intros; unfold unwind; destruct (run_defers ds fs); reflexivity. Qed.

Lemma remove_file_in : forall p fs x, In x (remove_file p fs) <-> In x fs /\ x <> p.
Proof.
  intros p fs x; induction fs as [|f fs IH]; simpl; [tauto|].
  destruct (String.eqb_spec f p) as [->|Hne]; simpl; rewrite IH; [|split]; intuition congruence.
Qed.

Lemma run_defers_files_in : forall ds fs x,
  In x (snd (run_defers ds fs)) -> In x fs /\ ~ In (DRemove x) ds.
Proof.
  induction ds as [|d ds IH]; intros fs x H; simpl in *; [tauto|].
  destruct d as [p|].
  - destruct (run_defers ds (remove_file p fs)) as [evs fs'] eqn:E. simpl in H.
    specialize (IH (remove_file p fs) x). rewrite E in IH. destruct (IH H) as [H1 H2].
    apply remove_file_in in H1 as [H1 H3]. split; auto.
    intros [E'|E']; [injection E'; auto | auto].
  - destruct (run_defers ds fs) as [evs fs'] eqn:E. simpl in H.
    specialize (IH fs x). rewrite E in IH. destruct (IH H) as [H1 H2].
    split; auto. intros [E'|E']; [discriminate | auto].
Qed.

Lemma unwind_clears : forall evs ds fs ex,
  (forall x, In x fs -> In (DRemove x) ds) -> files (unwind evs ds fs ex) = [].
Proof.
  intros evs ds fs ex H. rewrite unwind_files.
  destruct (snd (run_defers ds fs)) as [|x r] eqn:E; [reflexivity|].
  exfalso. destruct (run_defers_files_in ds fs x) as [H1 H2]; [rewrite E; left; auto|].
  apply H2, H, H1.
Qed.

(** ** Files left behind and the order of the exit *)

Ltac clears := apply unwind_clears; intros x Hx; simpl in Hx |- *; intuition congruence.

(** Every exit of the three programs that is not [log.Fatalf] (a normal
    return or a panic) leaves no file behind: each file [main] creates is
    registered for removal by a [defer] before anything can panic. *)
Theorem nonfatal_exit_leaves_no_file : forall i,
  (exit (program_000 i) <> ExitFatal -> files (program_000 i) = []) /\
  (exit (program_001 i) <> ExitFatal -> files (program_001 i) = []) /\
  (exit (main_go i) <> ExitFatal -> files (main_go i) = []).
Proof.
  intros i. split; [|split].
  - unfold program_000. destruct (init_000 _) as [cfg|m]; [|reflexivity].
    unfold main_000. destruct (in_user i); [|intros H; now elim H].
    destruct (in_tmp i); [|intros H; now elim H].
    destruct (negb (in_log_ok i)); [intros H; now elim H|].
    destruct (in_refresh0 i); [intros H; now elim H|].
    destruct (Getsh _ _ _) as [[sh gerr]|m]; [destruct (in_shell_start i)|]; intros _; clears.
  - unfold program_001. destruct (init_001 _) as [ri|m]; [|reflexivity].
    unfold main_001. destruct (in_user i); [|intros H; now elim H].
    destruct (in_tmp i); [|reflexivity].
    destruct (in_refresh0 i); [intros H; now elim H|].
    destruct (Getsh _ _ _) as [[sh gerr]|m]; [destruct (in_shell_start i)|]; intros _; clears.
  - unfold main_go. destruct (in_user i); [|intros H; now elim H].
    destruct (Getsh_main _ _) as [[sh gerr]|m]; [|reflexivity].
    destruct (in_tmp i); [|reflexivity].
    destruct (in_shell_start i); intros _; clears.
Qed.

Lemma Getsh_no_panic : forall env g fb,
  (forall m, Getsh_main g fb <> Panic m) -> exists sh err, Getsh env g fb = Ret (sh, err).
Proof.
  intros env g fb H. unfold Getsh. destruct (lookupenv "SHELL" env); [eauto|].
  destruct (Getsh_main g fb) as [[sh err]|m]; [eauto | exfalso; eapply H; eauto].
Qed.

Lemma Getsh_main_no_panic : forall g fb,
  (forall m, Getsh_main g fb <> Panic m) -> exists sh err, Getsh_main g fb = Ret (sh, err).
Proof.
  intros g fb H. destruct (Getsh_main g fb) as [[sh err]|m]; [eauto | exfalso; eapply H; eauto].
Qed.

(** In [part_000], once the refresher has started, [main] ends by
    stopping it and then removing the log file and the token file, in
    this order (the [defer]s run last-registered first), whatever happens
    next.  The exit is then one of three: a shell that started and exited
    gives a normal exit right after [EShellExited]; a shell that failed to
    start gives a panic with the start error; or [Getsh] panicked on the
    getent output (the slice of [out]), the run panics with that message
    and no shell was spawned. *)
Theorem main_000_exit_sequence : forall cfg i uid rnd,
  in_user i = Some uid -> in_tmp i = Some rnd -> in_log_ok i = true -> in_refresh0 i = None ->
  let tok := temp_name (copyenv (in_env i)) ("bt_u" ++ uid ++ "_") rnd in
  exists pre,
    events (main_000 cfg i) =
      app pre [ELog "stopping the token refresher..." []; EStopRefresher;
               ERemove (tok ++ ".log"); ERemove tok] /\
    ((in_shell_start i = None /\ exit (main_000 cfg i) = ExitNormal /\
      exists pre' sh, pre = app pre' [ESpawnShell sh; EShellExited]) \/
     (exists e, in_shell_start i = Some e /\ exit (main_000 cfg i) = ExitPanic e) \/
     (exists m, Getsh_main (in_getent i) "/bin/bash" = Panic m /\
        exit (main_000 cfg i) = ExitPanic m /\ forall sh, ~ In (ESpawnShell sh) pre)).
Proof.
  intros cfg i uid rnd Hu Ht Hl Hr tok.
  unfold main_000. rewrite Hu, Ht, Hl, Hr. cbn [negb]. fold tok.
  match goal with |- context [Getsh ?env (in_getent i) "/bin/bash"] =>
    destruct (Getsh env (in_getent i) "/bin/bash") as [[sh gerr]|m] eqn:EG end.
  - destruct (in_shell_start i) as [e|] eqn:Es.
    + eexists. rewrite unwind_events, unwind_exit. split; [reflexivity|].
      right; left. exists e. split; reflexivity.
    + eexists. rewrite unwind_events, unwind_exit. split; [reflexivity|].
      left. split; [reflexivity|]. split; [reflexivity|]. eauto.
  - eexists. rewrite unwind_events, unwind_exit. split; [reflexivity|].
    right; right. exists m. split.
    + unfold Getsh in EG. destruct (lookupenv "SHELL" _); [discriminate | exact EG].
    + split; [reflexivity|]. intros sh' H.
      cbn [refresh_000_events app In] in H. intuition discriminate.
Qed.

(** In [src/main.go] and [part_001], a normal exit logs the wait, stops
    the refresher and then removes the token file.  When the shell fails
    to start, [main] panics with the start error, the token file is still
    removed by its [defer], and the refresher is never stopped: [cancel]
    and [wg.Wait] are not deferred. *)
Theorem main_go_001_exit_sequence : forall ri i uid rnd,
  in_user i = Some uid -> in_tmp i = Some rnd ->
  (forall m, Getsh_main (in_getent i) "/bin/bash" <> Panic m) ->
  (let tok := temp_name (copyenv (in_env i)) ("bt_u" ++ uid) rnd in
   (in_shell_start i = None ->
      exit (main_go i) = ExitNormal /\
      exists pre sh, events (main_go i) =
        app pre [ESpawnShell sh; EShellExited; ELog "waiting for token refresher to exit..." [];
                 EStopRefresher; ERemove tok]) /\
   (forall e, in_shell_start i = Some e ->
      exit (main_go i) = ExitPanic e /\
      (exists pre, events (main_go i) = app pre [ERemove tok]) /\
      ~ In EStopRefresher (events (main_go i)))) /\
  (in_refresh0 i = None ->
   let tok := temp_name (copyenv (in_env i)) ("bt_u" ++ uid ++ "_") rnd in
   (in_shell_start i = None ->
      exit (main_001 ri i) = ExitNormal /\
      exists pre sh, events (main_001 ri i) =
        app pre [ESpawnShell sh; EShellExited; ELog "waiting for token refresher to exit..." [];
                 EStopRefresher; ERemove tok]) /\
   (forall e, in_shell_start i = Some e ->
      exit (main_001 ri i) = ExitPanic e /\
      (exists pre, events (main_001 ri i) = app pre [ERemove tok]) /\
      ~ In EStopRefresher (events (main_001 ri i)))).
Proof.
  intros ri i uid rnd Hu Ht Hg. split.
  - intros tok. unfold main_go. rewrite Hu.
    destruct (Getsh_main_no_panic _ _ Hg) as (sh & err & EG). rewrite EG, Ht. fold tok.
    split.
    + intros Hs. rewrite Hs, unwind_events, unwind_exit. split; [reflexivity|].
      do 2 eexists. cbn [run_defers fst]. rewrite <- app_assoc. reflexivity.
    + intros e Hs. rewrite Hs, unwind_events, unwind_exit. split; [reflexivity|].
      split; [eexists; reflexivity|].
      cbn [run_defers fst]. rewrite !in_app_iff.
      destruct err; cbn [log_if_err In]; intuition discriminate.
  - intros Hr tok. unfold main_001. rewrite Hu, Ht, Hr. fold tok.
    match goal with |- context [Getsh ?env (in_getent i) "/bin/bash"] =>
      destruct (Getsh_no_panic env (in_getent i) "/bin/bash" Hg) as (sh & err & EG); rewrite EG end.
    split.
    + intros Hs. rewrite Hs, unwind_events, unwind_exit. split; [reflexivity|].
      do 2 eexists. cbn [run_defers fst]. rewrite <- app_assoc. reflexivity.
    + intros e Hs. rewrite Hs, unwind_events, unwind_exit. split; [reflexivity|].
      split; [eexists; reflexivity|].
      cbn [run_defers fst]. rewrite !in_app_iff.
      destruct err; cbn [log_if_err In]; intuition discriminate.
Qed.

Lemma nonfatal_exit_leaves_no_file_witness :
  files (program_000 sample_inputs) = [] /\ files (program_001 sample_inputs) = [] /\
  files (main_go sample_inputs) = [].
Proof.
  destruct (nonfatal_exit_leaves_no_file sample_inputs) as (H0 & H1 & H2).
  split; [apply H0 | split; [apply H1 | apply H2]]; vm_compute; discriminate.
Defined.

Lemma main_000_exit_sequence_witness :
  (exists pre, events (main_000 default_config sample_trailing_colon) =
     app pre [ELog "stopping the token refresher..." []; EStopRefresher;
              ERemove "/tmp/bt_u1000_123456.log"; ERemove "/tmp/bt_u1000_123456"]) /\
  exit (main_000 default_config sample_trailing_colon)
    = ExitPanic "runtime error: slice bounds out of range".
Proof.
  pose proof (main_000_exit_sequence default_config sample_trailing_colon "1000" "123456"
                eq_refl eq_refl eq_refl eq_refl) as H.
  cbv zeta in H. destruct H as (pre & He & _).
  split; [exists pre; exact He | vm_compute; reflexivity].
Defined.

Lemma main_go_001_exit_sequence_witness :
  exit (main_go sample_inputs) = ExitNormal /\
  exit (main_001 (10 * minute) sample_inputs) = ExitNormal.
Proof.
  assert (Hg : forall m, Getsh_main (in_getent sample_inputs) "/bin/bash" <> Panic m)
    by (intros m; vm_compute; discriminate).
  pose proof (main_go_001_exit_sequence (10 * minute) sample_inputs "1000" "123456"
                eq_refl eq_refl Hg) as H.
  cbv zeta in H. destruct H as ((Hgo & _) & H1).
  split; [apply (Hgo eq_refl) | apply (proj1 (H1 eq_refl) eq_refl)].
Defined.

(** ** A failing [os.CreateTemp] *)



(** ** More invariants of the [Refresher] *)

Module RefresherMore.
Import Refresher.
Import RefresherFacts.

Section More.
Variable tok : string.
Variable log_set : bool.
Variable interval : Z.
Variable bg : Invocation.
Variable tool : nat -> error.

Abbreviation step := (step tok log_set interval bg tool).
Abbreviation star := (star tok log_set interval bg tool).
Abbreviation reachable := (reachable tok log_set interval bg tool).

(** A property that holds at [w0] and that every step keeps holds in
    every reachable state. *)
Lemma star_keeps : forall P : World -> Prop,
  (forall w w', P w -> step w w' -> P w') -> forall w w', star w w' -> P w -> P w'.
Proof.
  intros P Hs w w' Hst. induction Hst as [w|w1 w2 w3 H12 H23 IH]; intros Hp; auto.
  apply IH. eapply Hs; eauto.
Qed.

Lemma reachable_ind : forall P : World -> Prop,
  P w0 -> (forall w w', P w -> step w w' -> P w') -> forall w, reachable w -> P w.
Proof. intros P H0 Hs w Hr. exact (star_keeps P Hs w0 w Hr H0). Qed.

Definition no_rlog (w : World) : Prop := forall f a, ~ In (RLog f a) (trace w).

(** With a nil [r.Log], the refresher never writes to it: [Start], the
    timer case and a failed run all test [r.Log != nil] first. *)
Theorem nil_log_never_written :
  log_set = false -> forall w, reachable w -> forall f a, ~ In (RLog f a) (trace w).
Proof.
  intros Hl. apply (reachable_ind no_rlog); [intros f a H; exact H|].
  intros w w' Hw Hs f a Hin. unfold no_rlog in Hw.
  inversion Hs; subst; simpl in Hin; unfold log_line in Hin; rewrite ?Hl in Hin; simpl in Hin;
    try (destruct (tool n)); simpl in Hin; rewrite ?Hl in Hin; simpl in Hin;
    intuition (try discriminate; eauto).
Qed.

Definition pending (w : World) : nat :=
  match gor w with GRefreshing _ => 1 | _ => 0 end.

Lemma errors_logged_cons : forall e w w',
  trace w' = e :: trace w -> is_error_log e = false -> errors_logged w' = errors_logged w.
Proof. intros e w w' Ht He. unfold errors_logged. rewrite Ht. simpl. now rewrite He. Qed.

Lemma errors_log_line : forall f a l,
  String.eqb f "error refreshing token: %s" = false ->
  length (filter is_error_log (app (log_line log_set f a) l)) = length (filter is_error_log l).
Proof. intros f a l Hf. unfold log_line. destruct log_set; simpl; [rewrite Hf|]; reflexivity. Qed.

(** Each background run of htgettoken logs at most one error: the errors
    in the refresher log never outnumber the runs started. *)
Theorem errors_logged_le_calls : forall w, reachable w ->
  (errors_logged w + pending w <= calls w)%nat.
Proof.
  apply reachable_ind; [simpl; unfold errors_logged, pending; simpl; lia|].
  intros w w' Hw Hs. unfold errors_logged, pending in *.
  inversion Hs; subst; simpl in *;
    repeat match goal with Hg : gor w = _ |- _ => rewrite Hg in * end; auto.
  - rewrite errors_log_line by reflexivity. lia.
  - rewrite errors_log_line by reflexivity. lia.
  - destruct (tool n); [|lia].
    unfold log_line. destruct log_set; simpl; [|lia]. lia.
Qed.

Definition paced (ws w : World) : Prop :=
  ((Z.of_nat (calls w) - Z.of_nat (calls ws)) * interval <= now w - now ws)%Z /\
  (forall d, gor w = GSelect d ->
     ((Z.of_nat (calls w) - Z.of_nat (calls ws) + 1) * interval <= d - now ws)%Z).

(** Counted from a state where the goroutine is at the top of its loop,
    in particular the state [Start] returns in ([go func] has just been
    spawned), the n-th background run of htgettoken starts no earlier
    than n intervals later: every run waits for its own
    [time.After(interval)], armed when the loop comes round. *)
Theorem runs_paced_by_interval : forall ws w,
  gor ws = GLoop -> star ws w ->
  ((Z.of_nat (calls w) - Z.of_nat (calls ws)) * interval <= now w - now ws)%Z.
Proof.
  intros ws w Hg Hst. enough (H : paced ws w) by apply H.
  apply (star_keeps (paced ws)) with (w := ws); [| exact Hst |].
  - intros w1 w2 [Hn Hd] Hs. unfold paced in *.
    inversion Hs; subst; cbn [calls now gor] in *; rewrite ?Nat2Z.inj_succ in *;
      split; try (intros d' Hg'; discriminate Hg'); try exact Hd; try lia.
    + intros d' Hg'. injection Hg' as <-. lia.
    + specialize (Hd d H). lia.
  - split; [lia|]. intros d Hd. rewrite Hg in Hd. discriminate.
Qed.

End More.
End RefresherMore.

Lemma nil_log_never_written_witness :
  In (Refresher.RInvoke sample_bg) (Refresher.trace w_quiet) /\
  ~ In (Refresher.RLog "error refreshing token: %s" [AErr (Some "exit status 1")])
       (Refresher.trace w_quiet).
Proof.
  split; [simpl; auto|].
  exact (RefresherMore.nil_log_never_written sample_tok false (10 * minute) sample_bg
           (fun _ => Some "exit status 1") eq_refl w_quiet w_quiet_reachable
           "error refreshing token: %s" [AErr (Some "exit status 1")]).
Defined.

Lemma errors_logged_le_calls_witness :
  (RefresherFacts.errors_logged w_refreshing + RefresherMore.pending w_refreshing
     <= Refresher.calls w_refreshing)%nat.
Proof.
  exact (RefresherMore.errors_logged_le_calls sample_tok true (10 * minute) sample_bg
           (fun _ => None) w_refreshing (w_refreshing_reachable _)).
Defined.

Lemma runs_paced_by_interval_witness :
  ((Z.of_nat (Refresher.calls w_refreshing) - Z.of_nat (Refresher.calls w_started))
     * (10 * minute) <= Refresher.now w_refreshing - Refresher.now w_started)%Z.
Proof.
  apply (RefresherMore.runs_paced_by_interval sample_tok true (10 * minute) sample_bg
           (fun _ => None) w_started w_refreshing); [reflexivity|].
  eapply Refresher.star_step; [apply Refresher.st_after; reflexivity|].
  eapply Refresher.star_step; [apply (Refresher.st_tick _ _ _ _ _ _ (10 * minute)); reflexivity|].
  eapply Refresher.star_step;
    [eapply Refresher.st_timer; [reflexivity | vm_compute; discriminate]|].
  apply Refresher.star_refl.
Defined.
